(** * Cluster state, heartbeat path and region balancing of the PD coordinator

    A shallow embedding of the [RaftCluster] store and heartbeat operations
    and of [ScheduleConfig.Validate] (server/config/config.go), and of the
    balance-region scheduler with its hits cooldown filter.

    Go [uint64] ids are [N]; Go [float64] values are primitive floats, whose
    comparisons follow IEEE 754 like Go's; byte strings are [list Byte.byte];
    [time.Time] and [time.Duration] are nanoseconds in [Z].  Methods that take
    the cluster lock become functions from the cluster to an error, the new
    cluster and the log lines they emit. *)

From Stdlib Require Import ZArith Floats.
From stdpp Require Import base gmap list strings pretty.
From Stdlib Require Import Ascii.

(* ------------------------------------------------------------------ *)
(** ** metapb / pdpb messages *)

(** [metapb.StoreState]: a Go enum, i.e. an int32 that may carry codes
    other than the three named ones. *)
Inductive StoreState :=
| Up
| Offline
| Tombstone
| StoreState_Other (code : Z).

(** [metapb.StoreType]: a Go enum, i.e. an int32 that may carry codes other
    than the two named ones. *)
Inductive StoreType :=
| StoreType_Performance
| StoreType_Storage
| StoreType_Other (code : Z).

Record StoreLabel := { label_key : string; label_value : string }.

(** [metapb.Store] *)
Record Store := {
  store_id : N;
  store_address : string;
  store_peer_address : string;
  store_state : StoreState;
  store_version : string;
  store_labels : list StoreLabel;
  store_type : StoreType
}.

(** [pdpb.StoreStats] (the sampled statistics of a store heartbeat) *)
Record StoreStats := {
  ss_store_id : N;
  ss_capacity : N;
  ss_available : N;
  ss_used_size : N;
  ss_bytes_written : N;
  ss_bytes_read : N;
  ss_keys_written : N;
  ss_keys_read : N;
  ss_sending_snap_count : N;
  ss_receiving_snap_count : N;
  ss_applying_snap_count : N;
  ss_is_busy : bool
}.

Definition emptyStoreStats : StoreStats :=
  {| ss_store_id := 0; ss_capacity := 0; ss_available := 0; ss_used_size := 0;
     ss_bytes_written := 0; ss_bytes_read := 0; ss_keys_written := 0;
     ss_keys_read := 0; ss_sending_snap_count := 0; ss_receiving_snap_count := 0;
     ss_applying_snap_count := 0; ss_is_busy := false |}.

(* ------------------------------------------------------------------ *)
(** ** core.StoreInfo *)

Record StoreInfo := {
  si_meta : Store;
  si_stats : StoreStats;
  si_leader_count : nat;
  si_region_count : nat;
  si_pending_peer_count : nat;
  si_leader_size : Z;
  si_region_size : Z;
  si_last_heartbeat_ts : Z;
  si_leader_weight : float;
  si_region_weight : float;
  si_blocked : bool
}.

Definition GetID (s : StoreInfo) : N := store_id (si_meta s).
Definition GetAddress (s : StoreInfo) : string := store_address (si_meta s).
Definition GetState (s : StoreInfo) : StoreState := store_state (si_meta s).
Definition IsTombstone (s : StoreInfo) : bool :=
  match GetState s with Tombstone => true | _ => false end.
Definition IsUp (s : StoreInfo) : bool :=
  match GetState s with Up => true | _ => false end.
Definition IsOffline (s : StoreInfo) : bool :=
  match GetState s with Offline => true | _ => false end.

(** [core.NewStoreInfo]: counters zero, weights one, not blocked. *)
Definition NewStoreInfo (store : Store) : StoreInfo :=
  {| si_meta := store; si_stats := emptyStoreStats; si_leader_count := 0;
     si_region_count := 0; si_pending_peer_count := 0; si_leader_size := 0;
     si_region_size := 0; si_last_heartbeat_ts := 0;
     si_leader_weight := 1%float; si_region_weight := 1%float;
     si_blocked := false |}.

(** The [core.StoreCreateOption]s used by [Clone]: each copies the store and
    replaces the named fields. *)
Definition with_meta (m : Store) (s : StoreInfo) : StoreInfo :=
  {| si_meta := m; si_stats := si_stats s; si_leader_count := si_leader_count s;
     si_region_count := si_region_count s;
     si_pending_peer_count := si_pending_peer_count s;
     si_leader_size := si_leader_size s; si_region_size := si_region_size s;
     si_last_heartbeat_ts := si_last_heartbeat_ts s;
     si_leader_weight := si_leader_weight s; si_region_weight := si_region_weight s;
     si_blocked := si_blocked s |}.

Definition SetStoreState (st : StoreState) (s : StoreInfo) : StoreInfo :=
  let m := si_meta s in
  with_meta {| store_id := store_id m; store_address := store_address m;
               store_peer_address := store_peer_address m; store_state := st;
               store_version := store_version m; store_labels := store_labels m;
               store_type := store_type m |} s.

Definition SetStoreAddress (addr paddr : string) (s : StoreInfo) : StoreInfo :=
  let m := si_meta s in
  with_meta {| store_id := store_id m; store_address := addr;
               store_peer_address := paddr; store_state := store_state m;
               store_version := store_version m; store_labels := store_labels m;
               store_type := store_type m |} s.

Definition SetStoreVersion (v : string) (s : StoreInfo) : StoreInfo :=
  let m := si_meta s in
  with_meta {| store_id := store_id m; store_address := store_address m;
               store_peer_address := store_peer_address m; store_state := store_state m;
               store_version := v; store_labels := store_labels m;
               store_type := store_type m |} s.

Definition SetStoreLabels (ls : list StoreLabel) (s : StoreInfo) : StoreInfo :=
  let m := si_meta s in
  with_meta {| store_id := store_id m; store_address := store_address m;
               store_peer_address := store_peer_address m; store_state := store_state m;
               store_version := store_version m; store_labels := ls;
               store_type := store_type m |} s.

Definition SetStoreStats (st : StoreStats) (s : StoreInfo) : StoreInfo :=
  {| si_meta := si_meta s; si_stats := st; si_leader_count := si_leader_count s;
     si_region_count := si_region_count s;
     si_pending_peer_count := si_pending_peer_count s;
     si_leader_size := si_leader_size s; si_region_size := si_region_size s;
     si_last_heartbeat_ts := si_last_heartbeat_ts s;
     si_leader_weight := si_leader_weight s; si_region_weight := si_region_weight s;
     si_blocked := si_blocked s |}.

Definition SetLastHeartbeatTS (ts : Z) (s : StoreInfo) : StoreInfo :=
  {| si_meta := si_meta s; si_stats := si_stats s; si_leader_count := si_leader_count s;
     si_region_count := si_region_count s;
     si_pending_peer_count := si_pending_peer_count s;
     si_leader_size := si_leader_size s; si_region_size := si_region_size s;
     si_last_heartbeat_ts := ts;
     si_leader_weight := si_leader_weight s; si_region_weight := si_region_weight s;
     si_blocked := si_blocked s |}.

(** [UpdateStoreStatus]: the derived counters, recomputed from the region index. *)
Definition SetStoreStatus (lc rc pc : nat) (ls rs : Z) (s : StoreInfo) : StoreInfo :=
  {| si_meta := si_meta s; si_stats := si_stats s; si_leader_count := lc;
     si_region_count := rc; si_pending_peer_count := pc;
     si_leader_size := ls; si_region_size := rs;
     si_last_heartbeat_ts := si_last_heartbeat_ts s;
     si_leader_weight := si_leader_weight s; si_region_weight := si_region_weight s;
     si_blocked := si_blocked s |}.

(** [StoreInfo.GetLabelValue]: the value of the first label with key [k],
    the empty string when there is none. *)
Definition GetLabelValue (s : StoreInfo) (k : string) : string :=
  match find (fun l => bool_decide (label_key l = k)) (store_labels (si_meta s)) with
  | Some l => label_value l
  | None => ""
  end.

(* ------------------------------------------------------------------ *)
(** ** Regions: metapb.Region and core.RegionInfo *)

Record Peer := { peer_id : N; peer_store_id : N; peer_is_learner : bool }.

Record Region := {
  region_id : N;
  start_key : list Byte.byte;
  end_key : list Byte.byte;
  epoch_version : N;
  epoch_conf_ver : N;
  region_peers : list Peer
}.

Record RegionInfo := {
  ri_meta : Region;
  ri_leader : option Peer;            (* nil when the leader is unknown *)
  ri_down_peers : list Peer;
  ri_pending_peers : list Peer;
  ri_approximate_size : Z;
  ri_approximate_keys : Z;
  ri_bytes_written : N;
  ri_bytes_read : N;
  ri_keys_written : N;
  ri_keys_read : N
}.

Definition RegionGetID (r : RegionInfo) : N := region_id (ri_meta r).
Definition GetVersion (r : RegionInfo) : N := epoch_version (ri_meta r).
Definition GetConfVer (r : RegionInfo) : N := epoch_conf_ver (ri_meta r).
Definition GetPeers (r : RegionInfo) : list Peer := region_peers (ri_meta r).
(** [region.GetLeader().GetId()]: protobuf getters return 0 on nil. *)
Definition GetLeaderId (r : RegionInfo) : N :=
  match ri_leader r with Some p => peer_id p | None => 0 end.

(** Unsigned lexicographic order on byte strings. *)
Fixpoint bytes_lt (a b : list Byte.byte) : bool :=
  match a, b with
  | [], [] => false
  | [], _ :: _ => true
  | _ :: _, [] => false
  | x :: a', y :: b' =>
      if (Byte.to_N x <? Byte.to_N y)%N then true
      else if (Byte.to_N y <? Byte.to_N x)%N then false
      else bytes_lt a' b'
  end.

(** Modelled from the spec: the region tree ([core.regionTree], not in the
    sources) holds half-open ranges [start_key, end_key) where an empty
    end key is +infinity; two regions overlap when their ranges intersect. *)
Definition key_before_end (k endk : list Byte.byte) : bool :=
  match endk with [] => true | _ => bytes_lt k endk end.

Definition regions_overlap (a b : Region) : bool :=
  key_before_end (start_key a) (end_key b) && key_before_end (start_key b) (end_key a).

(* ------------------------------------------------------------------ *)
(** ** The metadata store ([core.Storage]) *)

(** A metadata store: the persisted store and region metas; [kv_fail] makes
    every write return an error and leave the store as it is. *)
Record Storage := {
  kv_stores : gmap N Store;
  kv_regions : gmap N Region;
  kv_fail : bool
}.

Inductive Err :=
| ErrRegionIsStale (incoming existing : Region)
| ErrStoreNotFound (id : N)
| ErrStoreTombstoned (id : N)
| ErrStorage                       (* an error returned by the metadata store *)
| ErrMsg (msg : string).

Definition SaveStore (kv : Storage) (m : Store) : option Err * Storage :=
  if kv_fail kv then (Some ErrStorage, kv)
  else (None, {| kv_stores := <[store_id m := m]> (kv_stores kv);
                 kv_regions := kv_regions kv; kv_fail := kv_fail kv |}).

Definition SaveRegion (kv : Storage) (m : Region) : option Err * Storage :=
  if kv_fail kv then (Some ErrStorage, kv)
  else (None, {| kv_stores := kv_stores kv;
                 kv_regions := <[region_id m := m]> (kv_regions kv);
                 kv_fail := kv_fail kv |}).

Definition DeleteRegion (kv : Storage) (m : Region) : option Err * Storage :=
  if kv_fail kv then (Some ErrStorage, kv)
  else (None, {| kv_stores := kv_stores kv;
                 kv_regions := delete (region_id m) (kv_regions kv);
                 kv_fail := kv_fail kv |}).

(* ------------------------------------------------------------------ *)
(** ** The cluster *)

Inductive LogLevel := LogInfo | LogWarn | LogError.
Definition LogEntry := (LogLevel * string)%type.

(** An entry produced by the hot cache's [CheckWriteStatus]/[CheckReadStatus]
    and applied by [hotSpotCache.Update]. *)
Record HotPeerStat := { hp_store_id : N; hp_region_id : N; hp_hot_degree : Z }.

(** [core.BasicCluster]: stores and regions indexed by id. *)
Record BasicCluster := {
  bc_stores : gmap N StoreInfo;
  bc_regions : gmap N RegionInfo
}.

(** The derived statistics the cluster keeps next to the index. *)
Record ClusterStats := {
  cs_stores_stats : gmap N (list StoreStats);   (* storesStats: samples per store *)
  cs_total_bytes_rate : N;                      (* storesStats total written rate *)
  cs_region_stats : option (gset N);            (* regionStats, may be nil *)
  cs_label_level_stats : gset N;                (* labelLevelStats *)
  cs_hot_cache : list HotPeerStat;              (* hotSpotCache updates applied *)
  cs_prepare_checker : list N                   (* prepareChecker.collect *)
}.

(** The bounded [changedRegions] channel. *)
Record Channel := { ch_buf : list RegionInfo; ch_cap : nat }.

(** Options read through [c.opt]. *)
Record ClusterOpts := {
  opt_location_labels : list string;
  opt_strictly_match_label : bool
}.

Record RaftCluster := {
  rc_core : BasicCluster;
  rc_storage : option Storage;                  (* c.storage, None when nil *)
  rc_stats : ClusterStats;
  rc_changed_regions : Channel;
  rc_opt : ClusterOpts
}.

Definition with_core (b : BasicCluster) (c : RaftCluster) : RaftCluster :=
  {| rc_core := b; rc_storage := rc_storage c; rc_stats := rc_stats c;
     rc_changed_regions := rc_changed_regions c; rc_opt := rc_opt c |}.
Definition with_storage (kv : option Storage) (c : RaftCluster) : RaftCluster :=
  {| rc_core := rc_core c; rc_storage := kv; rc_stats := rc_stats c;
     rc_changed_regions := rc_changed_regions c; rc_opt := rc_opt c |}.
Definition with_stats (st : ClusterStats) (c : RaftCluster) : RaftCluster :=
  {| rc_core := rc_core c; rc_storage := rc_storage c; rc_stats := st;
     rc_changed_regions := rc_changed_regions c; rc_opt := rc_opt c |}.
Definition with_changed (ch : Channel) (c : RaftCluster) : RaftCluster :=
  {| rc_core := rc_core c; rc_storage := rc_storage c; rc_stats := rc_stats c;
     rc_changed_regions := ch; rc_opt := rc_opt c |}.

Definition Stores (c : RaftCluster) : gmap N StoreInfo := bc_stores (rc_core c).
Definition Regions (c : RaftCluster) : gmap N RegionInfo := bc_regions (rc_core c).

Definition GetStore (c : RaftCluster) (id : N) : option StoreInfo := Stores c !! id.
Definition GetRegion (c : RaftCluster) (id : N) : option RegionInfo := Regions c !! id.
Definition GetStores (c : RaftCluster) : list StoreInfo := (map_to_list (Stores c)).*2.

(** [c.core.PutStore] *)
Definition corePutStore (s : StoreInfo) (c : RaftCluster) : RaftCluster :=
  with_core {| bc_stores := <[GetID s := s]> (Stores c);
               bc_regions := Regions c |} c.

(** Results of the cluster methods: the returned error (None for nil), the
    cluster afterwards, and the log lines emitted. *)
Definition Ret := (option Err * RaftCluster * list LogEntry)%type.

(* ------------------------------------------------------------------ *)
(** ** Store operations *)

(** [putStoreLocked]: persist the store meta (an error there is returned and
    nothing changes), then put it into the index and create its rolling stats. *)
Definition CreateRollingStoreStats (id : N) (st : ClusterStats) : ClusterStats :=
  {| cs_stores_stats := match cs_stores_stats st !! id with
                        | Some _ => cs_stores_stats st
                        | None => <[id := []]> (cs_stores_stats st)
                        end;
     cs_total_bytes_rate := cs_total_bytes_rate st;
     cs_region_stats := cs_region_stats st;
     cs_label_level_stats := cs_label_level_stats st;
     cs_hot_cache := cs_hot_cache st;
     cs_prepare_checker := cs_prepare_checker st |}.

Definition putStoreLocked (c : RaftCluster) (s : StoreInfo) : option Err * RaftCluster :=
  let put c := with_stats (CreateRollingStoreStats (GetID s) (rc_stats c)) (corePutStore s c) in
  match rc_storage c with
  | Some kv =>
      match SaveStore kv (si_meta s) with
      | (Some e, _) => (Some e, c)
      | (None, kv') => (None, put (with_storage (Some kv') c))
      end
  | None => (None, put c)
  end.

(** [RemoveStore]: Up -> Offline. *)
Definition RemoveStore (c : RaftCluster) (storeID : N) : Ret :=
  match GetStore c storeID with
  | None => (Some (ErrStoreNotFound storeID), c, [])
  | Some store =>
      if IsOffline store then (None, c, [])
      else if IsTombstone store then (Some (ErrStoreTombstoned storeID), c, [])
      else
        let newStore := SetStoreState Offline store in
        let '(e, c') := putStoreLocked c newStore in
        (e, c', [(LogWarn, "store has been offline")])
  end.

(** [BuryStore]: Up -> Tombstone (if force is true); Offline -> Tombstone. *)
Definition BuryStore (c : RaftCluster) (storeID : N) (force : bool) : Ret :=
  match GetStore c storeID with
  | None => (Some (ErrStoreNotFound storeID), c, [])
  | Some store =>
      if IsTombstone store then (None, c, [])
      else if IsUp store && negb force then
        (Some (ErrMsg "store is still up, please remove store gracefully"), c, [])
      else
        let logs1 := if IsUp store then [(LogWarn, "forcedly bury store")] else [] in
        let newStore := SetStoreState Tombstone store in
        let '(e, c') := putStoreLocked c newStore in
        (e, c', logs1 ++ [(LogWarn, "store has been Tombstone")])
  end.

(** [RaftCluster.SetStoreState] *)
Definition RaftSetStoreState (c : RaftCluster) (storeID : N) (state : StoreState) : Ret :=
  match GetStore c storeID with
  | None => (Some (ErrStoreNotFound storeID), c, [])
  | Some store =>
      let newStore := SetStoreState state store in
      let '(e, c') := putStoreLocked c newStore in
      (e, c', [(LogWarn, "store update state")])
  end.

(** [handleStoreHeartbeat].  [storesStats.Observe] appends the sample;
    [UpdateTotalBytesRate] recomputes the cluster total from the stores. *)
Definition Observe (id : N) (st : StoreStats) (cs : ClusterStats) : ClusterStats :=
  {| cs_stores_stats := <[id := st :: default [] (cs_stores_stats cs !! id)]> (cs_stores_stats cs);
     cs_total_bytes_rate := cs_total_bytes_rate cs;
     cs_region_stats := cs_region_stats cs;
     cs_label_level_stats := cs_label_level_stats cs;
     cs_hot_cache := cs_hot_cache cs;
     cs_prepare_checker := cs_prepare_checker cs |}.

Definition UpdateTotalBytesRate (stores : list StoreInfo) (cs : ClusterStats) : ClusterStats :=
  {| cs_stores_stats := cs_stores_stats cs;
     cs_total_bytes_rate := foldr (fun s acc => (ss_bytes_written (si_stats s) + acc)%N) 0%N stores;
     cs_region_stats := cs_region_stats cs;
     cs_label_level_stats := cs_label_level_stats cs;
     cs_hot_cache := cs_hot_cache cs;
     cs_prepare_checker := cs_prepare_checker cs |}.

Definition handleStoreHeartbeat (c : RaftCluster) (stats : StoreStats) (now : Z) : Ret :=
  let storeID := ss_store_id stats in
  match GetStore c storeID with
  | None => (Some (ErrStoreNotFound storeID), c, [])
  | Some store =>
      let newStore := SetLastHeartbeatTS now (SetStoreStats stats store) in
      let c1 := corePutStore newStore c in
      let c2 := with_stats (Observe (GetID newStore) (si_stats newStore) (rc_stats c1)) c1 in
      let c3 := with_stats (UpdateTotalBytesRate (GetStores c2) (rc_stats c2)) c2 in
      (None, c3, [])
  end.

Section PutStore.
(** [ParseVersion] and [IsCompatible] (semantic versions of the cluster and of
    the store) and [StoreInfo.MergeLabels] are helpers outside these sources;
    [putStore] is studied for any of them. *)
Variable Version : Type.
Variable ParseVersion : string -> option Version.
Variable IsCompatible : Version -> Version -> bool.
Variable MergeLabels : StoreInfo -> list StoreLabel -> list StoreLabel.

(** First loop of the location-label check, over the configured keys. *)
Fixpoint checkLabelKeys (strict : bool) (s : StoreInfo) (keys : list string)
  : option Err * list LogEntry :=
  match keys with
  | [] => (None, [])
  | k :: ks =>
      if bool_decide (GetLabelValue s k = "") then
        if strict then (Some (ErrMsg "label configuration is incorrect, need to specify the key"),
                        [(LogWarn, "label configuration is incorrect")])
        else let '(e, l) := checkLabelKeys strict s ks in
             (e, (LogWarn, "label configuration is incorrect") :: l)
      else checkLabelKeys strict s ks
  end.

(** Second loop, over the store's labels, against the set of configured keys. *)
Fixpoint checkStoreLabels (strict : bool) (keysSet : list string) (ls : list StoreLabel)
  : option Err * list LogEntry :=
  match ls with
  | [] => (None, [])
  | l :: ls' =>
      if bool_decide (label_key l ∈ keysSet) then checkStoreLabels strict keysSet ls'
      else if strict then (Some (ErrMsg "key matching the label was not found in the PD"),
                           [(LogWarn, "not found the key match with the store label")])
      else let '(e, lg) := checkStoreLabels strict keysSet ls' in
           (e, (LogWarn, "not found the key match with the store label") :: lg)
  end.

Definition duplicatedAddress (c : RaftCluster) (store : Store) : bool :=
  existsb (fun s => negb (IsTombstone s) && bool_decide (GetID s <> store_id store)
                    && bool_decide (GetAddress s = store_address store))
          (GetStores c).

(** The store [putStore] writes: a new one, or the cached one with the new
    address and version and the labels merged. *)
Definition mergedStore (c : RaftCluster) (store : Store) : StoreInfo :=
  match GetStore c (store_id store) with
  | None => NewStoreInfo store
  | Some s =>
      let labels := MergeLabels s (store_labels store) in
      SetStoreLabels labels (SetStoreVersion (store_version store)
        (SetStoreAddress (store_address store) (store_peer_address store) s))
  end.

(** [clusterVersion] is [*c.opt.LoadClusterVersion()]. *)
Definition putStore (clusterVersion : Version) (c : RaftCluster) (store : Store) : Ret :=
  if bool_decide (store_id store = 0%N) then (Some (ErrMsg "invalid put store"), c, []) else
  match ParseVersion (store_version store) with
  | None => (Some (ErrMsg "invalid put store"), c, [])
  | Some v =>
  if negb (IsCompatible clusterVersion v) then
    (Some (ErrMsg "version should compatible with version"), c, [])
  else if duplicatedAddress c store then
    (Some (ErrMsg "duplicated store address"), c, [])
  else
    let s := mergedStore c store in
    let strict := opt_strictly_match_label (rc_opt c) in
    let keys := opt_location_labels (rc_opt c) in
    match checkLabelKeys strict s keys with
    | (Some e, l1) => (Some e, c, l1)
    | (None, l1) =>
        match checkStoreLabels strict keys (store_labels (si_meta s)) with
        | (Some e, l2) => (Some e, c, l1 ++ l2)
        | (None, l2) => let '(e, c') := putStoreLocked c s in (e, c', l1 ++ l2)
        end
    end
  end.
End PutStore.

(* ------------------------------------------------------------------ *)
(** ** The region heartbeat *)

Definition GetRegions (c : RaftCluster) : list RegionInfo := (map_to_list (Regions c)).*2.

(** Modelled from the spec: [core.GetOverlaps] (region tree, not in the
    sources) returns the cached regions whose key range intersects the range
    of [region]. *)
Definition GetOverlaps (c : RaftCluster) (region : RegionInfo) : list RegionInfo :=
  filter (fun x => regions_overlap (ri_meta x) (ri_meta region) = true) (GetRegions c).

(** Modelled from the spec: [core.PutRegion] replaces the region with the same
    id and evicts, returning them, the other regions whose range intersects
    the new one and whose (version, conf_ver) is strictly smaller. *)
Definition epoch_lt (a b : RegionInfo) : bool :=
  (GetVersion a <? GetVersion b)%N
  || ((GetVersion a =? GetVersion b)%N && (GetConfVer a <? GetConfVer b)%N).

Definition PutRegion (region : RegionInfo) (b : BasicCluster) : BasicCluster * list RegionInfo :=
  let others := delete (RegionGetID region) (bc_regions b) in
  let overlaps := filter (fun x => regions_overlap (ri_meta x) (ri_meta region)
                                   && epoch_lt x region = true)
                         ((map_to_list others).*2) in
  let kept := foldr (fun x m => delete (RegionGetID x) m) others overlaps in
  ({| bc_stores := bc_stores b;
      bc_regions := <[RegionGetID region := region]> kept |}, overlaps).

(** [updateStoreStatusLocked]: the store's leader, region and pending-peer
    counts and sizes recomputed from the region index. *)
Definition leaderStoreId (r : RegionInfo) : N :=
  match ri_leader r with Some p => peer_store_id p | None => 0 end.
Definition hasPeerOn (id : N) (ps : list Peer) : bool :=
  existsb (fun p => bool_decide (peer_store_id p = id)) ps.

Definition updateStoreStatusLocked (id : N) (c : RaftCluster) : RaftCluster :=
  let rs := GetRegions c in
  let leaders := filter (fun r => leaderStoreId r = id) rs in
  let withPeer := filter (fun r => hasPeerOn id (GetPeers r) = true) rs in
  let pending := foldr (fun r n => length (filter (fun p => peer_store_id p = id)
                                                 (ri_pending_peers r)) + n) 0 rs in
  let size l := foldr (fun r z => (ri_approximate_size r + z)%Z) 0%Z l in
  match GetStore c id with
  | None => c
  | Some s => corePutStore (SetStoreStatus (length leaders) (length withPeer) pending
                                           (size leaders) (size withPeer) s) c
  end.

Definition mapStats (f : ClusterStats -> ClusterStats) (c : RaftCluster) : RaftCluster :=
  with_stats (f (rc_stats c)) c.

Definition collectPrepare (region : RegionInfo) (cs : ClusterStats) : ClusterStats :=
  {| cs_stores_stats := cs_stores_stats cs; cs_total_bytes_rate := cs_total_bytes_rate cs;
     cs_region_stats := cs_region_stats cs; cs_label_level_stats := cs_label_level_stats cs;
     cs_hot_cache := cs_hot_cache cs;
     cs_prepare_checker := cs_prepare_checker cs ++ [RegionGetID region] |}.

(** [regionStats.ClearDefunctRegion] (when regionStats is not nil) and
    [labelLevelStats.ClearDefunctRegion]. *)
Definition clearDefunct (id : N) (cs : ClusterStats) : ClusterStats :=
  {| cs_stores_stats := cs_stores_stats cs; cs_total_bytes_rate := cs_total_bytes_rate cs;
     cs_region_stats := (fun s => s ∖ {[id]}) <$> cs_region_stats cs;
     cs_label_level_stats := cs_label_level_stats cs ∖ {[id]};
     cs_hot_cache := cs_hot_cache cs; cs_prepare_checker := cs_prepare_checker cs |}.

Definition observeRegion (region : RegionInfo) (cs : ClusterStats) : ClusterStats :=
  {| cs_stores_stats := cs_stores_stats cs; cs_total_bytes_rate := cs_total_bytes_rate cs;
     cs_region_stats := (fun s => {[RegionGetID region]} ∪ s) <$> cs_region_stats cs;
     cs_label_level_stats := cs_label_level_stats cs;
     cs_hot_cache := cs_hot_cache cs; cs_prepare_checker := cs_prepare_checker cs |}.

Definition hotUpdate (item : HotPeerStat) (cs : ClusterStats) : ClusterStats :=
  {| cs_stores_stats := cs_stores_stats cs; cs_total_bytes_rate := cs_total_bytes_rate cs;
     cs_region_stats := cs_region_stats cs; cs_label_level_stats := cs_label_level_stats cs;
     cs_hot_cache := cs_hot_cache cs ++ [item]; cs_prepare_checker := cs_prepare_checker cs |}.

(** [select { case c.changedRegions <- region: default: }] *)
Definition trySend (region : RegionInfo) (ch : Channel) : Channel :=
  if decide (length (ch_buf ch) < ch_cap ch)
  then {| ch_buf := ch_buf ch ++ [region]; ch_cap := ch_cap ch |} else ch.

(** The first loop: with no cached region of the same id, the first overlapping
    region whose version is greater than the incoming one. *)
Definition staleOverlap (c : RaftCluster) (region : RegionInfo) : option RegionInfo :=
  find (fun item => (GetVersion region <? GetVersion item)%N) (GetOverlaps c region).

(** The comparison with the cached region [origin]: either the stale error or
    the flags (saveKV, saveCache, isNew) and the lines logged. *)
Definition compareOrigin (region origin : RegionInfo)
  : Err + (bool * bool * bool * list LogEntry) :=
  let r_v := GetVersion region in let o_v := GetVersion origin in
  let r_c := GetConfVer region in let o_c := GetConfVer origin in
  if ((r_v <? o_v) || (r_c <? o_c))%N then inl (ErrRegionIsStale (ri_meta region) (ri_meta origin))
  else
    let '(kv1, cache1, l1) :=
      if (o_v <? r_v)%N then (true, true, [(LogInfo, "region Version changed")])
      else (false, false, []) in
    let '(kv2, cache2, l2) :=
      if (o_c <? r_c)%N then (true, true, l1 ++ [(LogInfo, "region ConfVer changed")])
      else (kv1, cache1, l1) in
    let '(cache3, isNew, l3) :=
      if negb (GetLeaderId region =? GetLeaderId origin)%N then
        if (GetLeaderId origin =? 0)%N then (true, true, l2)
        else (true, false, l2 ++ [(LogInfo, "leader changed")])
      else (cache2, false, l2) in
    let cache4 := cache3 || bool_decide (0 < length (ri_down_peers region))
                  || bool_decide (0 < length (ri_pending_peers region)) in
    let cache5 := cache4 || bool_decide (0 < length (ri_down_peers origin))
                  || bool_decide (0 < length (ri_pending_peers origin)) in
    let '(kv6, cache6) :=
      if negb (length (GetPeers region) =? length (GetPeers origin))%nat
      then (true, true) else (kv2, cache5) in
    let cache7 := cache6 || negb (ri_approximate_size region =? ri_approximate_size origin)%Z
                  || negb (ri_approximate_keys region =? ri_approximate_keys origin)%Z in
    let cache8 := cache7 || negb (ri_bytes_written region =? ri_bytes_written origin)%N
                  || negb (ri_bytes_read region =? ri_bytes_read origin)%N
                  || negb (ri_keys_written region =? ri_keys_written origin)%N
                  || negb (ri_keys_read region =? ri_keys_read origin)%N in
    inr (kv6, cache8, isNew, l3).

(** Deleting the evicted regions from the metadata store, best effort. *)
Fixpoint deleteOverlaps (kv : Storage) (overlaps : list RegionInfo) : Storage * list LogEntry :=
  match overlaps with
  | [] => (kv, [])
  | item :: rest =>
      let '(e, kv1) := DeleteRegion kv (ri_meta item) in
      let '(kv2, l) := deleteOverlaps kv1 rest in
      (kv2, match e with
            | Some _ => (LogError, "failed to delete region from storage") :: l
            | None => l end)
  end.

(** The loops over the evicted regions, the touched stores and the hot items. *)
Definition clearDefuncts (overlaps : list RegionInfo) (c : RaftCluster) : RaftCluster :=
  foldl (fun c item => mapStats (clearDefunct (RegionGetID item)) c) c overlaps.
Definition updateStores (peers : list Peer) (c : RaftCluster) : RaftCluster :=
  foldl (fun c p => updateStoreStatusLocked (peer_store_id p) c) c peers.
Definition applyHot (items : list HotPeerStat) (c : RaftCluster) : RaftCluster :=
  foldl (fun c item => mapStats (hotUpdate item) c) c items.

Section RegionHeartbeat.
(** The hot cache's [CheckWriteStatus] and [CheckReadStatus], read under the
    read lock; they do not change the cluster. *)
Variable CheckWriteStatus : RaftCluster -> RegionInfo -> list HotPeerStat.
Variable CheckReadStatus : RaftCluster -> RegionInfo -> list HotPeerStat.

(** The part of [processRegionHeartbeat] under the write lock. *)
Definition applyRegionHeartbeat (c : RaftCluster) (origin : option RegionInfo)
    (region : RegionInfo) (saveCache isNew : bool) (items : list HotPeerStat)
  : RaftCluster * list LogEntry :=
  let c1 := if isNew then mapStats (collectPrepare region) c else c in
  let '(c2, logs) :=
    if saveCache then
      let '(core', overlaps) := PutRegion region (rc_core c1) in
      let ca := with_core core' c1 in
      let '(cb, logs) := match rc_storage ca with
                         | Some kv => let '(kv', l) := deleteOverlaps kv overlaps in
                                      (with_storage (Some kv') ca, l)
                         | None => (ca, [])
                         end in
      let cc := clearDefuncts overlaps cb in
      let cd := match origin with Some o => updateStores (GetPeers o) cc | None => cc end in
      (updateStores (GetPeers region) cd, logs)
    else (c1, []) in
  (applyHot items (mapStats (observeRegion region) c2), logs).

Definition processRegionHeartbeat (c : RaftCluster) (region : RegionInfo) : Ret :=
  let origin := GetRegion c (RegionGetID region) in
  match match origin with None => staleOverlap c region | Some _ => None end with
  | Some item => (Some (ErrRegionIsStale (ri_meta region) (ri_meta item)), c, [])
  | None =>
  let writeItems := CheckWriteStatus c region in
  let readItems := CheckReadStatus c region in
  let flags := match origin with
               | None => inr (true, true, true, [])
               | Some o => compareOrigin region o
               end in
  match flags with
  | inl e => (Some e, c, [])
  | inr (saveKV, saveCache, isNew, logs1) =>
      let '(c1, logs2) :=
        match saveKV, rc_storage c with
        | true, Some kv =>
            let '(e, kv') := SaveRegion kv (ri_meta region) in
            (with_changed (trySend region (rc_changed_regions c)) (with_storage (Some kv') c),
             match e with
             | Some _ => [(LogError, "failed to save region to storage")]
             | None => [] end)
        | _, _ => (c, [])
        end in
      if bool_decide (writeItems = []) && bool_decide (readItems = [])
         && negb saveCache && negb isNew
      then (None, c1, logs1 ++ logs2)
      else
        let '(c2, logs3) := applyRegionHeartbeat c1 origin region saveCache isNew
                              (writeItems ++ readItems) in
        (None, c2, logs1 ++ logs2 ++ logs3)
  end
  end.
End RegionHeartbeat.

(* ------------------------------------------------------------------ *)
(** ** The hits cooldown of the balance-region scheduler *)

(** [time.Duration] constants, in nanoseconds. *)
Definition Second : Z := 1000000000.
Definition Minute : Z := 60 * Second.

Definition balanceRegionRetryLimit : nat := 10.
Definition hitsStoreTTL : Z := 5 * Minute.
Definition hitsStoreCountThreshold : Z := 30 * Z.of_nat balanceRegionRetryLimit.

Record record := { lastTime : Z; count : Z }.

(** The [hits] map holds pointers to records that [put] updates in place;
    no record is shared between two keys, so updating a record is inserting
    the updated value at its key. *)
Record hitsStoreBuilder := {
  hits : gmap string record;
  ttl : Z;
  threshold : Z
}.

Definition newHitsStoreBuilder (t : Z) (th : Z) : hitsStoreBuilder :=
  {| hits := ∅; ttl := t; threshold := th |}.

Definition with_hits (m : gmap string record) (h : hitsStoreBuilder) : hitsStoreBuilder :=
  {| hits := m; ttl := ttl h; threshold := threshold h |}.

(** [getKey]: "s<id>" for a source, "s<id>->t<id>" for a source-target pair,
    "" when the source is nil. *)
Definition getKey (source target : option StoreInfo) : string :=
  match source with
  | None => ""
  | Some s =>
      let key := "s" +:+ pretty (GetID s) in
      match target with
      | None => key
      | Some t => key +:+ "->t" +:+ pretty (GetID t)
      end
  end.

(** [filter]: also drops an expired record.  [now - lastTime] is
    [time.Since(item.lastTime)]. *)
Definition hitsFilter (now : Z) (source target : option StoreInfo) (h : hitsStoreBuilder)
  : bool * hitsStoreBuilder :=
  let key := getKey source target in
  if bool_decide (key = "") then (false, h) else
  match hits h !! key with
  | Some item =>
      let h' := if bool_decide (now - lastTime item > ttl h)%Z
                then with_hits (delete key (hits h)) h else h in
      if bool_decide (now - lastTime item <= ttl h)%Z && bool_decide (count item >= threshold h)%Z
      then (true, h') else (false, h')
  | None => (false, h)
  end.

Definition hitsRemove (source target : option StoreInfo) (h : hitsStoreBuilder) : hitsStoreBuilder :=
  let key := getKey source target in
  match hits h !! key with
  | Some _ => if bool_decide (key <> "") then with_hits (delete key (hits h)) h else h
  | None => h
  end.

Definition hitsPut (now : Z) (source target : option StoreInfo) (h : hitsStoreBuilder)
  : hitsStoreBuilder :=
  let key := getKey source target in
  if bool_decide (key = "") then h else
  match hits h !! key with
  | Some item =>
      let c := if bool_decide (now - lastTime item >= ttl h)%Z then 0%Z else (count item + 1)%Z in
      with_hits (<[key := {| lastTime := now; count := c |}]> (hits h)) h
  | None => with_hits (<[key := {| lastTime := now; count := 0 |}]> (hits h)) h
  end.

(** [buildSourceFilter] / [buildTargetFilter]: the blacklisted store ids. *)
Definition buildSourceFilter (now : Z) (cluster : RaftCluster) (h : hitsStoreBuilder)
  : list N * hitsStoreBuilder :=
  foldl (fun '(bl, h) source =>
           let '(b, h') := hitsFilter now (Some source) None h in
           (if b then bl ++ [GetID source] else bl, h'))
        ([], h) (GetStores cluster).

Definition buildTargetFilter (now : Z) (cluster : RaftCluster) (source : option StoreInfo)
    (h : hitsStoreBuilder) : list N * hitsStoreBuilder :=
  foldl (fun '(bl, h) target =>
           let '(b, h') := hitsFilter now source (Some target) h in
           (if b then bl ++ [GetID target] else bl, h'))
        ([], h) (GetStores cluster).

(** Follows the spec's words (for comparison with [hitsFilter]): a store is
    rejected as source when it has been selected as source, without an
    operator, at least [hitsStoreCountThreshold] times within the last
    [hitsStoreTTL].  [attempts] are the times of those failed selections. *)
Definition spec_source_rejected (now : Z) (attempts : list Z) : bool :=
  bool_decide (hitsStoreCountThreshold <=
                 Z.of_nat (length (filter (fun t => now - hitsStoreTTL <= t <= now)%Z attempts)))%Z.

(** The failed selections of a source, one [put] each, from an empty builder. *)
Definition putAll (s : StoreInfo) (times : list Z) (h : hitsStoreBuilder) : hitsStoreBuilder :=
  foldl (fun h t => hitsPut t (Some s) None h) h times.

(* ------------------------------------------------------------------ *)
(** ** The balance-region scheduler *)

(** A Go computation that returns or panics. *)
Inductive Go (A : Type) : Type :=
| Done (a : A)
| Panic (msg : string).
Arguments Done {A} a.
Arguments Panic {A} msg.

#[global] Instance Go_ret : MRet Go := fun A a => Done a.
#[global] Instance Go_bind : MBind Go := fun A B f m =>
  match m with Done a => f a | Panic msg => Panic msg end.

(** [core.StoreInfo.GetID] (pointer receiver) reads [s.meta]: on a nil store it panics. *)
Definition ptrGetID (s : option StoreInfo) : Go N :=
  match s with
  | Some s => Done (GetID s)
  | None => Panic "invalid memory address or nil pointer dereference"
  end.

Fixpoint mapGo {A B} (f : A -> Go B) (l : list A) : Go (list B) :=
  match l with
  | [] => Done []
  | x :: l' => y ← f x; ys ← mapGo f l'; Done (y :: ys)
  end.

Inductive RegionPick := PendingRegion | FollowerRegion | LeaderRegion.

Record Operator := { op_desc : string; op_region_id : N; op_source : N; op_target : N }.

(** The scheduler's state across calls: its hits cooldown and the draws of
    the random region samplers made so far. *)
Record SchedState := { sc_hits : hitsStoreBuilder; sc_rng : nat }.

Definition set_hits (h : hitsStoreBuilder) (st : SchedState) : SchedState :=
  {| sc_hits := h; sc_rng := sc_rng st |}.

(** [Schedule]'s partition of the stores.  [make([]*core.StoreInfo, len(stores))]
    starts both slices with [len(stores)] nil entries; [append] adds after them. *)
Definition partitionStores (stores : list StoreInfo)
  : list (option StoreInfo) * list (option StoreInfo) :=
  foldl (fun '(storageStores, performanceStores) store =>
           match store_type (si_meta store) with
           | StoreType_Storage => (storageStores ++ [Some store], performanceStores)
           | StoreType_Performance => (storageStores, performanceStores ++ [Some store])
           | StoreType_Other _ => (storageStores, performanceStores ++ [Some store])
           end)
        (repeat None (length stores), repeat None (length stores)) stores.

Definition isStorageType (t : StoreType) : bool :=
  match t with StoreType_Storage => true | _ => false end.

Lemma partitionStores_shape stores :
  partitionStores stores =
  (repeat None (length stores) ++
     map Some (filter (fun s => isStorageType (store_type (si_meta s)) = true) stores),
   repeat None (length stores) ++
     map Some (filter (fun s => isStorageType (store_type (si_meta s)) = false) stores)).
Proof.
  unfold partitionStores. generalize (repeat (@None StoreInfo) (length stores)) as z.
  intros z. cut (forall a b, foldl (fun '(storageStores, performanceStores) store =>
           match store_type (si_meta store) with
           | StoreType_Storage => (storageStores ++ [Some store], performanceStores)
           | StoreType_Performance => (storageStores, performanceStores ++ [Some store])
           | StoreType_Other _ => (storageStores, performanceStores ++ [Some store])
           end) (a, b) stores =
    (a ++ map Some (filter (fun s => isStorageType (store_type (si_meta s)) = true) stores),
     b ++ map Some (filter (fun s => isStorageType (store_type (si_meta s)) = false) stores))).
  { intros H. apply H. }
  induction stores as [|s l IH]; intros a b; simpl; [by rewrite !app_nil_r|].
  rewrite !filter_cons.
  destruct (store_type (si_meta s)) eqn:Ht; simpl; rewrite IH;
    repeat case_decide; simplify_eq/=; by rewrite <- !app_assoc.
Qed.

Lemma omap_id_padded (n : nat) (l : list StoreInfo) :
  omap id (repeat None n ++ map Some l) = l.
Proof. induction n; simpl; [induction l; simpl; f_equal; auto|auto]. Qed.

Lemma partitionStores_filter stores :
  omap id (partitionStores stores).1 =
    filter (fun s => isStorageType (store_type (si_meta s)) = true) stores /\
  omap id (partitionStores stores).2 =
    filter (fun s => isStorageType (store_type (si_meta s)) = false) stores.
Proof. rewrite partitionStores_shape. simpl. by rewrite !omap_id_padded. Qed.

Section BalanceRegion.
(** The collaborators outside these sources:
    - [SelectSource]: the balance selector over the include list, with the
      hits source blacklist (it may panic);
    - [RandRegion k id n]: the n-th draw of [RandPendingRegion],
      [RandFollowerRegion] or [RandLeaderRegion] on store [id];
    - [IsRegionHot], [GetMaxReplicas];
    - [SelectBestReplacementStore region source hitsBlacklist excluded]
      (0 when there is none), [shouldBalance], [AllocPeer] and
      [CreateMovePeerOperator] (None on error). *)
Variable SelectSource : list (option StoreInfo) -> list N -> Go (option StoreInfo).
Variable RandRegion : RegionPick -> N -> nat -> option RegionInfo.
Variable IsRegionHot : RegionInfo -> bool.
Variable MaxReplicas : nat.
Variable SelectBestReplacementStore : RegionInfo -> N -> list N -> list N -> N.
Variable shouldBalance : StoreInfo -> StoreInfo -> RegionInfo -> bool.
Variable AllocPeer : N -> option Peer.
Variable CreateMovePeerOperator : RegionInfo -> N -> N -> N -> option Operator.

(** [transferPeer]; [source] is the store the region was sampled from. *)
Definition transferPeer (st : SchedState) (now : Z) (cluster : RaftCluster)
    (region : RegionInfo) (source : StoreInfo) (excludedStores : list (option StoreInfo))
  : Go (option Operator * SchedState) :=
  let '(targetBlacklist, h1) := buildTargetFilter now cluster (Some source) (sc_hits st) in
  excludeStoreIDs ← mapGo ptrGetID excludedStores;
  let storeID := SelectBestReplacementStore region (GetID source) targetBlacklist excludeStoreIDs in
  if bool_decide (storeID = 0%N) then
    Done (None, set_hits (hitsPut now (Some source) None h1) st)
  else
    match GetStore cluster storeID with
    | None => Panic "invalid memory address or nil pointer dereference"
    | Some target =>
        if negb (shouldBalance source target region) then
          Done (None, set_hits (hitsPut now (Some source) (Some target) h1) st)
        else
          match AllocPeer storeID with
          | None => Done (None, set_hits h1 st)
          | Some newPeer =>
              match CreateMovePeerOperator region (GetID source) (peer_store_id newPeer)
                                           (peer_id newPeer) with
              | None => Done (None, set_hits h1 st)
              | Some op =>
                  Done (Some op, set_hits (hitsRemove (Some source) None
                                            (hitsRemove (Some source) (Some target) h1)) st)
              end
          end
    end.

(** One sampling: pending first, then follower, then leader; each call draws. *)
Definition pickRegion (sourceID : N) (st : SchedState) : option RegionInfo * SchedState :=
  let n := sc_rng st in
  let next k := {| sc_hits := sc_hits st; sc_rng := n + k |} in
  match RandRegion PendingRegion sourceID n with
  | Some r => (Some r, next 1)
  | None =>
      match RandRegion FollowerRegion sourceID (S n) with
      | Some r => (Some r, next 2)
      | None => (RandRegion LeaderRegion sourceID (S (S n)), next 3)
      end
  end.

(** The retry loop of [scheduleImpl], [i] attempts left. *)
Fixpoint retryLoop (i : nat) (st : SchedState) (now : Z) (cluster : RaftCluster)
    (source : StoreInfo) (excludedStores : list (option StoreInfo))
  : Go (option (list Operator) * SchedState) :=
  match i with
  | O => Done (None, st)
  | S i' =>
      let '(region, st1) := pickRegion (GetID source) st in
      let skip := set_hits (hitsPut now (Some source) None (sc_hits st1)) st1 in
      match region with
      | None => retryLoop i' skip now cluster source excludedStores
      | Some region =>
          if negb (length (GetPeers region) =? MaxReplicas)%nat then
            retryLoop i' skip now cluster source excludedStores
          else if IsRegionHot region then
            retryLoop i' skip now cluster source excludedStores
          else
            r ← transferPeer st1 now cluster region source excludedStores;
            match r with
            | (Some op, st2) => Done (Some [op], st2)
            | (None, st2) => retryLoop i' st2 now cluster source excludedStores
            end
      end
  end.

Definition scheduleImpl (st : SchedState) (now : Z) (cluster : RaftCluster)
    (includeStores excludedStores : list (option StoreInfo))
  : Go (option (list Operator) * SchedState) :=
  let '(blacklist, h1) := buildSourceFilter now cluster (sc_hits st) in
  let st1 := set_hits h1 st in
  src ← SelectSource includeStores blacklist;
  match src with
  | None => Done (None, st1)
  | Some source => retryLoop balanceRegionRetryLimit st1 now cluster source excludedStores
  end.

Definition Schedule (st : SchedState) (now : Z) (cluster : RaftCluster)
  : Go (option (list Operator) * SchedState) :=
  let '(storageStores, performanceStores) := partitionStores (GetStores cluster) in
  r ← scheduleImpl st now cluster storageStores performanceStores;
  match r with
  | (Some ops, st1) => Done (Some ops, st1)
  | (None, st1) => scheduleImpl st1 now cluster performanceStores storageStores
  end.

(** An operator only comes out of [CreateMovePeerOperator] on the region
    [transferPeer] was given. *)
Lemma transferPeer_some st now cluster region source excludedStores op st' :
  transferPeer st now cluster region source excludedStores = Done (Some op, st') ->
  exists a b c, CreateMovePeerOperator region a b c = Some op.
Proof.
  unfold transferPeer. intros H.
  destruct (buildTargetFilter _ _ _ _) as [bl h1].
  destruct (mapGo ptrGetID excludedStores) as [ids|m]; simpl in H; [|discriminate].
  repeat (case_match; simplify_eq/=); eauto.
Qed.

Lemma pickRegion_some sourceID st r st1 :
  pickRegion sourceID st = (Some r, st1) -> exists k n, RandRegion k sourceID n = Some r.
Proof. unfold pickRegion. intros H. repeat (case_match; simplify_eq/=); eauto. Qed.

Definition fromColdRegion (ops : list Operator) : Prop :=
  exists k sid n r a b c op, RandRegion k sid n = Some r /\ IsRegionHot r = false /\
    CreateMovePeerOperator r a b c = Some op /\ ops = [op].

Lemma retryLoop_some i st now cluster source excludedStores ops st' :
  retryLoop i st now cluster source excludedStores = Done (Some ops, st') ->
  fromColdRegion ops.
Proof.
  revert st. induction i as [|i IH]; intros st H; simpl in H; [discriminate|].
  destruct (pickRegion (GetID source) st) as [[r|] st1] eqn:Hp; [|eauto].
  destruct (negb _); [eauto|].
  destruct (IsRegionHot r) eqn:Hhot; [eauto|].
  destruct (transferPeer st1 now cluster r source excludedStores) as [[[op|] st2]|m] eqn:Ht;
    simpl in H; [|eauto|discriminate].
  simplify_eq. apply transferPeer_some in Ht as (a & b & c & Hc).
  apply pickRegion_some in Hp as (k & n & Hr).
  exists k, (GetID source), n, r, a, b, c, op. auto.
Qed.

Lemma scheduleImpl_some st now cluster inc exc ops st' :
  scheduleImpl st now cluster inc exc = Done (Some ops, st') -> fromColdRegion ops.
Proof.
  unfold scheduleImpl. destruct (buildSourceFilter _ _ _) as [bl h1].
  destruct (SelectSource inc bl) as [[src|]|m]; intros H; cbv [mbind Go_bind] in H;
    try discriminate.
  eapply retryLoop_some; eauto.
Qed.

(** C7: an operator returned by [Schedule] is built on a sampled region
    that is not hot (hot regions are skipped before [transferPeer]); so
    when every region the samplers can return is hot, [Schedule] returns
    no operator. *)
Theorem Schedule_skips_hot st now cluster ops st' :
  Schedule st now cluster = Done (ops, st') ->
  match ops with None => True | Some l => fromColdRegion l end /\
  ((forall k sid n r, RandRegion k sid n = Some r -> IsRegionHot r = true) -> ops = None).
Proof.
  intros H.
  assert (Hc : match ops with None => True | Some l => fromColdRegion l end).
  { unfold Schedule in H. destruct (partitionStores (GetStores cluster)) as [sto perf].
    destruct (scheduleImpl st now cluster sto perf) as [[[l|] st1]|m] eqn:H1;
      simpl in H; try discriminate.
    - simplify_eq. eapply scheduleImpl_some; eauto.
    - destruct ops; [|done]. eapply scheduleImpl_some; eauto. }
  split; [exact Hc|]. intros Hall. destruct ops as [l|]; [|done].
  destruct Hc as (k & sid & n & r & a & b & c & op & Hr & Hcold & _).
  rewrite (Hall _ _ _ _ Hr) in Hcold. discriminate.
Qed.

(** C2 (amended): [Schedule] partitions the stores by type: the storage
    list holds the Storage stores, the other list every other store
    (Performance or any other type), each in store order after the nil
    entries [make] created; it runs [scheduleImpl] on (storage, other)
    first, returns its operators if there are any, and otherwise runs it
    with the two lists swapped. *)
Theorem Schedule_tiers st now cluster :
  let '(sto, perf) := partitionStores (GetStores cluster) in
  omap id sto = filter (fun s => isStorageType (store_type (si_meta s)) = true) (GetStores cluster) /\
  omap id perf = filter (fun s => isStorageType (store_type (si_meta s)) = false) (GetStores cluster) /\
  Schedule st now cluster =
    match scheduleImpl st now cluster sto perf with
    | Done (Some ops, st1) => Done (Some ops, st1)
    | Done (None, st1) => scheduleImpl st1 now cluster perf sto
    | Panic m => Panic m
    end.
Proof.
  pose proof (partitionStores_filter (GetStores cluster)) as [H1 H2].
  unfold Schedule. destruct (partitionStores (GetStores cluster)) as [sto perf].
  split; [|split]; [exact H1|exact H2|].
  destruct (scheduleImpl st now cluster sto perf) as [[[l|] st1]|m]; reflexivity.
Qed.
End BalanceRegion.

(* ------------------------------------------------------------------ *)
(** ** ScheduleConfig validation *)

Record SchedulerConfig := {
  sc_type : string;
  sc_args : list string;
  sc_disable : bool;
  sc_args_payload : string
}.

(** The fields of [ScheduleConfig] that [Validate] reads. *)
Record ScheduleConfig := {
  TolerantSizeRatio : float;
  LowSpaceRatio : float;
  HighSpaceRatio : float;
  Schedulers : list SchedulerConfig
}.

Section Validate.
(** [schedule.IsSchedulerRegistered]: the registry filled by the schedulers'
    [init] functions. *)
Variable IsSchedulerRegistered : string -> bool.

(** [ScheduleConfig.Validate]: the error message, None for nil. *)
Definition Validate (c : ScheduleConfig) : option string :=
  if (TolerantSizeRatio c <? 0)%float then Some "tolerant-size-ratio should be nonnegative"
  else if (LowSpaceRatio c <? 0)%float || (1 <? LowSpaceRatio c)%float then
    Some "low-space-ratio should between 0 and 1"
  else if (HighSpaceRatio c <? 0)%float || (1 <? HighSpaceRatio c)%float then
    Some "high-space-ratio should between 0 and 1"
  else if (LowSpaceRatio c <=? HighSpaceRatio c)%float then
    Some "low-space-ratio should be larger than high-space-ratio"
  else match find (fun sc => negb (IsSchedulerRegistered (sc_type sc))) (Schedulers c) with
       | Some sc => Some ("create func of " +:+ sc_type sc +:+ " is not registered, maybe misspelled")
       | None => None
       end.
End Validate.

(* ================================================================== *)
(** * Properties *)

(** The store index is keyed by store id. *)
Definition StoresKeyed (c : RaftCluster) : Prop :=
  map_Forall (fun i s => GetID s = i) (Stores c).

(** Writes to the metadata store succeed (or there is none). *)
Definition storageWritable (c : RaftCluster) : bool :=
  match rc_storage c with Some kv => negb (kv_fail kv) | None => true end.

Lemma putStoreLocked_cases c s e c' :
  putStoreLocked c s = (e, c') ->
  (storageWritable c = true /\ e = None /\
     Stores c' = <[GetID s := s]> (Stores c) /\ Regions c' = Regions c)
  \/ (storageWritable c = false /\ e = Some ErrStorage /\ c' = c).
Proof.
  unfold putStoreLocked, storageWritable, SaveStore.
  destruct (rc_storage c) as [kv|] eqn:Hkv.
  - destruct (kv_fail kv) eqn:Hf; simpl; intros H; inversion H; subst; [right|left]; auto.
  - intros H; inversion H; subst; left; auto.
Qed.

(** Small clusters for the concrete checks. *)
Definition mkStore (id : N) (addr : string) (st : StoreState) (ty : StoreType)
    (labels : list StoreLabel) : Store :=
  {| store_id := id; store_address := addr; store_peer_address := addr;
     store_state := st; store_version := "3.0.0"; store_labels := labels;
     store_type := ty |}.

Definition emptyClusterStats : ClusterStats :=
  {| cs_stores_stats := ∅; cs_total_bytes_rate := 0; cs_region_stats := Some ∅;
     cs_label_level_stats := ∅; cs_hot_cache := []; cs_prepare_checker := [] |}.

Definition demoCluster (kv : option Storage) (opts : ClusterOpts)
    (stores : list Store) (regions : list RegionInfo) : RaftCluster :=
  {| rc_core := {| bc_stores := list_to_map ((fun m => (store_id m, NewStoreInfo m)) <$> stores);
                   bc_regions := list_to_map ((fun r => (RegionGetID r, r)) <$> regions) |};
     rc_storage := kv; rc_stats := emptyClusterStats;
     rc_changed_regions := {| ch_buf := []; ch_cap := 4 |}; rc_opt := opts |}.

Definition emptyStorage (fail : bool) : Storage :=
  {| kv_stores := ∅; kv_regions := ∅; kv_fail := fail |}.

Definition noLabels : ClusterOpts :=
  {| opt_location_labels := []; opt_strictly_match_label := false |}.

(** One store of each state, ids 1 (Up), 2 (Offline), 3 (Tombstone). *)
Definition threeStores : list Store :=
  [mkStore 1 "a:1" Up StoreType_Performance [];
   mkStore 2 "a:2" Offline StoreType_Performance [];
   mkStore 3 "a:3" Tombstone StoreType_Storage []].

Definition storeStateOf (c : RaftCluster) (id : N) : option StoreState :=
  GetState <$> GetStore c id.

Example bury_offline_ok :
  storeStateOf (BuryStore (demoCluster (Some (emptyStorage false)) noLabels threeStores []) 2 false).1.2 2
  = Some Tombstone.
Proof. reflexivity. Qed.

Example bury_up_unforced :
  (BuryStore (demoCluster None noLabels threeStores []) 1 false).1.1
  = Some (ErrMsg "store is still up, please remove store gracefully").
Proof. reflexivity. Qed.

Lemma StoresKeyed_lookup c id s :
  StoresKeyed c -> GetStore c id = Some s -> GetID s = id.
Proof. intros Hk Hs. exact (Hk id s Hs). Qed.

Lemma GetID_SetStoreState st s : GetID (SetStoreState st s) = GetID s.
Proof. reflexivity. Qed.

Lemma GetState_SetStoreState st s : GetState (SetStoreState st s) = st.
Proof. reflexivity. Qed.

(** After a successful [putStoreLocked] of a store with id [id], the store
    lookups. *)
Lemma putStoreLocked_lookup c s e c' j :
  putStoreLocked c s = (e, c') -> e = None ->
  GetStore c' j = if bool_decide (j = GetID s) then Some s else GetStore c j.
Proof.
  intros H He. unfold GetStore.
  destruct (putStoreLocked_cases c s e c' H) as [(_ & _ & Hs & _)|(_ & He' & _)];
    [|congruence].
  rewrite Hs. case_bool_decide; subst.
  - by rewrite lookup_insert_eq.
  - by rewrite lookup_insert_ne.
Qed.


(** C5 (amended). *)
Theorem BuryStore_by_state c id force store :
  StoresKeyed c ->
  GetStore c id = Some store ->
  match BuryStore c id force with
  | (e, c', logs) =>
    (GetState store = Up -> force = false -> e <> None /\ c' = c) /\
    (GetState store = Tombstone -> e = None /\ c' = c) /\
    ((GetState store = Up /\ force = true) \/ GetState store = Offline ->
       (GetState store = Up -> (LogWarn, "forcedly bury store") ∈ logs) /\
       (storageWritable c = true ->
          e = None /\ GetStore c' id = Some (SetStoreState Tombstone store) /\
          (forall j, j <> id -> GetStore c' j = GetStore c j)) /\
       (storageWritable c = false -> e = Some ErrStorage /\ c' = c))
  end.
Proof.
  intros Hk Hs. pose proof (StoresKeyed_lookup c id store Hk Hs) as Hid.
  unfold BuryStore. rewrite Hs.
  destruct (IsTombstone store) eqn:Ht.
  { unfold IsTombstone in Ht. destruct (GetState store) eqn:Hst; try discriminate.
    repeat split; intros; try congruence; destruct_or?; destruct_and?; congruence. }
  destruct (IsUp store && negb force) eqn:Hu.
  { apply andb_true_iff in Hu as [Hu Hf]. destruct force; try discriminate.
    unfold IsUp in Hu. destruct (GetState store) eqn:Hst; try discriminate.
    repeat split; intros; try congruence; destruct_or?; destruct_and?; congruence. }
  destruct (putStoreLocked c (SetStoreState Tombstone store)) as [e c'] eqn:Hp.
  split; [|split].
  - intros HU Hf. subst force. unfold IsUp in Hu. rewrite HU in Hu. discriminate.
  - intros HT. unfold IsTombstone in Ht. rewrite HT in Ht. discriminate.
  - intros _. split; [|split].
    + intros HU. unfold IsUp. rewrite HU. simpl. left.
    + intros Hw.
      destruct (putStoreLocked_cases c _ e c' Hp) as [(_ & He & _)|(Hw' & _)];
        [|congruence].
      subst e. split; [done|]. split.
      * rewrite (putStoreLocked_lookup c _ None c' id Hp eq_refl).
        rewrite GetID_SetStoreState, Hid. by rewrite bool_decide_true.
      * intros j Hj. rewrite (putStoreLocked_lookup c _ None c' j Hp eq_refl).
        rewrite GetID_SetStoreState, Hid. by rewrite bool_decide_false.
    + intros Hw.
      destruct (putStoreLocked_cases c _ e c' Hp) as [(Hw' & _)|(_ & He & Hc)];
        [congruence|]. auto.
Qed.

Lemma demoCluster_keyed kv opts stores regions :
  StoresKeyed (demoCluster kv opts stores regions).
Proof.
  unfold StoresKeyed, Stores, demoCluster; simpl.
  induction stores as [|m ms IH]; simpl.
  - apply map_Forall_empty.
  - apply map_Forall_insert_2; [reflexivity|exact IH].
Qed.

Definition buryCluster (fail : bool) : RaftCluster :=
  demoCluster (Some (emptyStorage fail)) noLabels threeStores [].

(** C5 witness: store 2 is Offline; the unforced bury succeeds with a
    writable metadata store. *)
Lemma BuryStore_by_state_witness :
  StoresKeyed (buryCluster false) /\
  GetStore (buryCluster false) 2 = Some (NewStoreInfo (mkStore 2 "a:2" Offline StoreType_Performance [])) /\
  match BuryStore (buryCluster false) 2 false with
  | (e, c', logs) =>
    (GetState (NewStoreInfo (mkStore 2 "a:2" Offline StoreType_Performance [])) = Up -> false = false -> e <> None /\ c' = buryCluster false) /\
    (GetState (NewStoreInfo (mkStore 2 "a:2" Offline StoreType_Performance [])) = Tombstone -> e = None /\ c' = buryCluster false) /\
    ((GetState (NewStoreInfo (mkStore 2 "a:2" Offline StoreType_Performance [])) = Up /\ false = true) \/
       GetState (NewStoreInfo (mkStore 2 "a:2" Offline StoreType_Performance [])) = Offline ->
       (GetState (NewStoreInfo (mkStore 2 "a:2" Offline StoreType_Performance [])) = Up -> (LogWarn, "forcedly bury store") ∈ logs) /\
       (storageWritable (buryCluster false) = true ->
          e = None /\ GetStore c' 2 = Some (SetStoreState Tombstone (NewStoreInfo (mkStore 2 "a:2" Offline StoreType_Performance []))) /\
          (forall j, j <> 2%N -> GetStore c' j = GetStore (buryCluster false) j)) /\
       (storageWritable (buryCluster false) = false -> e = Some ErrStorage /\ c' = buryCluster false))
  end.
Proof.
  split; [apply demoCluster_keyed|]. split; [reflexivity|].
  exact (BuryStore_by_state (buryCluster false) 2 false _ (demoCluster_keyed _ _ _ _) eq_refl).
Defined.

(** C5 counterexample: with a failing metadata store, burying the Offline
    store 2 returns the storage error and the store stays Offline. *)
Lemma BuryStore_offline_not_always :
  (BuryStore (buryCluster true) 2 false).1.1 = Some ErrStorage /\
  storeStateOf (BuryStore (buryCluster true) 2 false).1.2 2 = Some Offline.
Proof. split; reflexivity. Qed.

(** C3: the three ways a store's state can be written. *)
Lemma putStoreLocked_keeps_tombstone c s e c' t st :
  GetStore c t = Some st -> GetState st = Tombstone ->
  (GetID s = t -> GetState s = Tombstone) ->
  putStoreLocked c s = (e, c') -> storeStateOf c' t = Some Tombstone.
Proof.
  intros Ht Hst Hs Hp. unfold storeStateOf.
  destruct (putStoreLocked_cases c s e c' Hp) as [(_ & He & _)|(_ & _ & ->)].
  - subst e. rewrite (putStoreLocked_lookup c s None c' t Hp eq_refl).
    case_bool_decide as Hid.
    + simpl. by rewrite Hs.
    + by rewrite Ht; simpl; rewrite Hst.
  - by rewrite Ht; simpl; rewrite Hst.
Qed.

Lemma putStore_cases Version ParseVersion IsCompatible MergeLabels cv c store e c' l :
  putStore Version ParseVersion IsCompatible MergeLabels cv c store = (e, c', l) ->
  c' = c \/ putStoreLocked c (mergedStore MergeLabels c store) = (e, c').
Proof.
  unfold putStore. intros Hput.
  repeat (case_match; simplify_eq/=; auto).
Qed.

Lemma mergedStore_tombstone MergeLabels c store t st :
  StoresKeyed c -> GetStore c t = Some st -> GetState st = Tombstone ->
  GetID (mergedStore MergeLabels c store) = t ->
  GetState (mergedStore MergeLabels c store) = Tombstone.
Proof.
  intros Hk Ht Hst. unfold mergedStore.
  destruct (GetStore c (store_id store)) as [s|] eqn:Hs.
  - simpl. intros Hid. change (GetID s = t) in Hid.
    pose proof (StoresKeyed_lookup c _ s Hk Hs). subst t.
    assert (s = st) by congruence. subst. exact Hst.
  - simpl. intros Hid. unfold GetID in Hid; simpl in Hid. subst t. congruence.
Qed.

(** C3 (code bug): [putStore], [RemoveStore] and [BuryStore] leave a
    Tombstone store Tombstone, whatever store they name and whatever they
    return; [SetStoreState] lacks the Tombstone guard of its siblings and
    writes the requested state unconditionally, so on a writable metadata
    store it moves a Tombstone store to any state. *)
Theorem tombstone_kept_except_SetStoreState
    Version ParseVersion IsCompatible MergeLabels (cv : Version) c t st :
  StoresKeyed c -> GetStore c t = Some st -> GetState st = Tombstone ->
  (forall store,
     storeStateOf (putStore Version ParseVersion IsCompatible MergeLabels cv c store).1.2 t
     = Some Tombstone) /\
  (forall id, storeStateOf (RemoveStore c id).1.2 t = Some Tombstone) /\
  (forall id force, storeStateOf (BuryStore c id force).1.2 t = Some Tombstone) /\
  (forall state, storageWritable c = true ->
     storeStateOf (RaftSetStoreState c t state).1.2 t = Some state).
Proof.
  intros Hk Ht Hst.
  assert (Hc : storeStateOf c t = Some Tombstone)
    by (unfold storeStateOf; rewrite Ht; simpl; congruence).
  split; [|split; [|split]].
  - intros store.
    destruct (putStore _ _ _ _ cv c store) as [[e c'] l] eqn:Hp. simpl.
    destruct (putStore_cases _ _ _ _ _ _ _ _ _ _ Hp) as [->|Hl]; [exact Hc|].
    eapply putStoreLocked_keeps_tombstone; [exact Ht|exact Hst| |exact Hl].
    eapply mergedStore_tombstone; eauto.
  - intros id. unfold RemoveStore.
    destruct (GetStore c id) as [s|] eqn:Hs; [|exact Hc].
    destruct (IsOffline s); [exact Hc|].
    destruct (IsTombstone s) eqn:Hts; [exact Hc|].
    destruct (putStoreLocked c (SetStoreState Offline s)) as [e c'] eqn:Hp. simpl.
    eapply putStoreLocked_keeps_tombstone; [exact Ht|exact Hst| |exact Hp].
    rewrite GetID_SetStoreState. intros Hid.
    rewrite (StoresKeyed_lookup c id s Hk Hs) in Hid. subst id.
    assert (s = st) by congruence. subst. unfold IsTombstone in Hts.
    rewrite Hst in Hts. discriminate.
  - intros id force. unfold BuryStore.
    destruct (GetStore c id) as [s|] eqn:Hs; [|exact Hc].
    destruct (IsTombstone s); [exact Hc|].
    destruct (IsUp s && negb force); [exact Hc|].
    destruct (putStoreLocked c (SetStoreState Tombstone s)) as [e c'] eqn:Hp. simpl.
    eapply putStoreLocked_keeps_tombstone; [exact Ht|exact Hst| |exact Hp].
    intros _. reflexivity.
  - intros state Hw. unfold RaftSetStoreState. rewrite Ht.
    destruct (putStoreLocked c (SetStoreState state st)) as [e c'] eqn:Hp. simpl.
    destruct (putStoreLocked_cases c _ e c' Hp) as [(_ & He & _)|(Hw' & _)];
      [|congruence].
    subst e. unfold storeStateOf.
    rewrite (putStoreLocked_lookup c _ None c' t Hp eq_refl).
    rewrite GetID_SetStoreState, (StoresKeyed_lookup c t st Hk Ht).
    rewrite bool_decide_true; reflexivity.
Qed.

(** C3 failing input: [SetStoreState] brings the Tombstone store 3 back Up
    and returns nil. *)
Lemma SetStoreState_revives_tombstone :
  storeStateOf (buryCluster false) 3 = Some Tombstone /\
  (RaftSetStoreState (buryCluster false) 3 Up).1.1 = None /\
  storeStateOf (RaftSetStoreState (buryCluster false) 3 Up).1.2 3 = Some Up.
Proof. split; [|split]; reflexivity. Qed.

Definition unitParse (_ : string) : option unit := Some tt.
Definition alwaysCompatible (_ _ : unit) : bool := true.
Definition replaceLabels (_ : StoreInfo) (ls : list StoreLabel) : list StoreLabel := ls.

(** C3 witness: the Tombstone store 3 of [buryCluster false]. *)
Lemma tombstone_kept_except_SetStoreState_witness :
  StoresKeyed (buryCluster false) /\
  GetStore (buryCluster false) 3 = Some (NewStoreInfo (mkStore 3 "a:3" Tombstone StoreType_Storage [])) /\
  GetState (NewStoreInfo (mkStore 3 "a:3" Tombstone StoreType_Storage [])) = Tombstone /\
  (forall store,
     storeStateOf (putStore unit unitParse alwaysCompatible replaceLabels tt (buryCluster false) store).1.2 3
     = Some Tombstone) /\
  (forall id, storeStateOf (RemoveStore (buryCluster false) id).1.2 3 = Some Tombstone) /\
  (forall id force, storeStateOf (BuryStore (buryCluster false) id force).1.2 3 = Some Tombstone) /\
  (forall state, storageWritable (buryCluster false) = true ->
     storeStateOf (RaftSetStoreState (buryCluster false) 3 state).1.2 3 = Some state).
Proof.
  split; [apply demoCluster_keyed|]. split; [reflexivity|]. split; [reflexivity|].
  exact (tombstone_kept_except_SetStoreState unit unitParse alwaysCompatible replaceLabels tt
           (buryCluster false) 3 _ (demoCluster_keyed _ _ _ _) eq_refl eq_refl).
Defined.

(** The fields of a store other than its sampled statistics and its last
    heartbeat time agree. *)
Definition sameExceptStatsTS (a b : StoreInfo) : Prop :=
  si_meta a = si_meta b /\ si_leader_count a = si_leader_count b /\
  si_region_count a = si_region_count b /\
  si_pending_peer_count a = si_pending_peer_count b /\
  si_leader_size a = si_leader_size b /\ si_region_size a = si_region_size b /\
  si_leader_weight a = si_leader_weight b /\ si_region_weight a = si_region_weight b /\
  si_blocked a = si_blocked b.

(** C10: a store heartbeat replaces only the named store's statistics and
    heartbeat time; an unknown store id is an error and changes nothing. *)
Theorem handleStoreHeartbeat_frame c stats now :
  StoresKeyed c ->
  match handleStoreHeartbeat c stats now with
  | (e, c', _) =>
    (GetStore c (ss_store_id stats) = None ->
       e = Some (ErrStoreNotFound (ss_store_id stats)) /\ c' = c) /\
    (forall s, GetStore c (ss_store_id stats) = Some s ->
       e = None /\
       (exists s', GetStore c' (ss_store_id stats) = Some s' /\
                   si_stats s' = stats /\ si_last_heartbeat_ts s' = now /\
                   sameExceptStatsTS s s') /\
       (forall j, j <> ss_store_id stats -> GetStore c' j = GetStore c j) /\
       Regions c' = Regions c /\ rc_storage c' = rc_storage c /\
       rc_changed_regions c' = rc_changed_regions c /\ rc_opt c' = rc_opt c)
  end.
Proof.
  intros Hk. unfold handleStoreHeartbeat.
  destruct (GetStore c (ss_store_id stats)) as [s|] eqn:Hs.
  - pose proof (StoresKeyed_lookup c _ s Hk Hs) as Hid.
    split; [discriminate|]. intros s0 Hs0. inversion Hs0; subst s0.
    split; [reflexivity|]. unfold GetStore, Stores, corePutStore in *; simpl.
    split; [|split; [|repeat split]].
    + eexists. split.
      * change (GetID (SetLastHeartbeatTS now (SetStoreStats stats s))) with (GetID s).
        rewrite Hid. apply lookup_insert_eq.
      * repeat split.
    + intros j Hj. rewrite lookup_insert_ne; [reflexivity|].
      change (GetID (SetLastHeartbeatTS now (SetStoreStats stats s))) with (GetID s).
      congruence.
  - split; [intros _; split; reflexivity|]. intros s0 Hs0. congruence.
Qed.

Definition hbCluster : RaftCluster :=
  demoCluster (Some (emptyStorage false)) noLabels threeStores [].

Definition hbStats : StoreStats :=
  {| ss_store_id := 1; ss_capacity := 100; ss_available := 60; ss_used_size := 40;
     ss_bytes_written := 7; ss_bytes_read := 3; ss_keys_written := 1; ss_keys_read := 1;
     ss_sending_snap_count := 0; ss_receiving_snap_count := 0;
     ss_applying_snap_count := 0; ss_is_busy := false |}.

(** C10 witness: a heartbeat of store 1. *)
Lemma handleStoreHeartbeat_frame_witness :
  StoresKeyed hbCluster /\
  match handleStoreHeartbeat hbCluster hbStats 42 with
  | (e, c', _) =>
    (GetStore hbCluster (ss_store_id hbStats) = None ->
       e = Some (ErrStoreNotFound (ss_store_id hbStats)) /\ c' = hbCluster) /\
    (forall s, GetStore hbCluster (ss_store_id hbStats) = Some s ->
       e = None /\
       (exists s', GetStore c' (ss_store_id hbStats) = Some s' /\
                   si_stats s' = hbStats /\ si_last_heartbeat_ts s' = 42%Z /\
                   sameExceptStatsTS s s') /\
       (forall j, j <> ss_store_id hbStats -> GetStore c' j = GetStore hbCluster j) /\
       Regions c' = Regions hbCluster /\ rc_storage c' = rc_storage hbCluster /\
       rc_changed_regions c' = rc_changed_regions hbCluster /\ rc_opt c' = rc_opt hbCluster)
  end.
Proof.
  split; [apply demoCluster_keyed|].
  exact (handleStoreHeartbeat_frame hbCluster hbStats 42 (demoCluster_keyed _ _ _ _)).
Defined.

(** C6: the checks of [putStore]. *)
Lemma checkLabelKeys_spec strict s keys :
  (checkLabelKeys strict s keys).1 <> None <->
  strict = true /\ exists k, k ∈ keys /\ GetLabelValue s k = "".
Proof.
  induction keys as [|k ks IH]; simpl.
  - split; [congruence|]. intros (_ & k & Hk & _). set_solver.
  - case_bool_decide as Hk.
    + destruct strict.
      * simpl. split; [intros _; split; [done|]; exists k; split; [left|]; done|discriminate].
      * destruct (checkLabelKeys false s ks) as [e l] eqn:He; simpl in *.
        split; [intros H; apply IH in H as [H _]; discriminate|].
        intros [H _]; discriminate.
    + rewrite IH. split.
      * intros (Hs & k' & Hk' & Hv). split; [done|]. exists k'. split; [right|]; done.
      * intros (Hs & k' & Hk' & Hv). split; [done|]. exists k'.
        apply elem_of_cons in Hk' as [->|Hk']; [congruence|]. done.
Qed.

Lemma checkStoreLabels_spec strict keys ls :
  (checkStoreLabels strict keys ls).1 <> None <->
  strict = true /\ exists l, l ∈ ls /\ label_key l ∉ keys.
Proof.
  induction ls as [|l ls' IH]; simpl.
  - split; [congruence|]. intros (_ & l & Hl & _). set_solver.
  - case_bool_decide as Hl.
    + rewrite IH. split.
      * intros (Hs & l' & Hl' & Hk). split; [done|]. exists l'. split; [right|]; done.
      * intros (Hs & l' & Hl' & Hk). split; [done|]. exists l'.
        apply elem_of_cons in Hl' as [->|Hl']; [congruence|]. done.
    + destruct strict.
      * simpl. split; [intros _; split; [done|]; exists l; split; [left|]; done|discriminate].
      * destruct (checkStoreLabels false keys ls') as [e lg] eqn:He; simpl in *.
        split; [intros H; apply IH in H as [H _]; discriminate|].
        intros [H _]; discriminate.
Qed.

Lemma duplicatedAddress_spec c store :
  duplicatedAddress c store = true <->
  exists i s, GetStore c i = Some s /\ IsTombstone s = false /\
              GetID s <> store_id store /\ GetAddress s = store_address store.
Proof.
  unfold duplicatedAddress, GetStores, GetStore. rewrite existsb_exists. split.
  - intros (s & Hin & Hb). apply list_elem_of_In in Hin.
    apply list_elem_of_fmap in Hin as ([i s'] & -> & Hin).
    apply elem_of_map_to_list in Hin. simpl in *.
    apply andb_true_iff in Hb as [Hb Ha]. apply andb_true_iff in Hb as [Ht Hd].
    apply bool_decide_eq_true in Hd, Ha. apply negb_true_iff in Ht. eauto 6.
  - intros (i & s & Hs & Ht & Hd & Ha). exists s. split.
    + apply list_elem_of_In. apply list_elem_of_fmap. exists (i, s). split; [done|].
      by apply elem_of_map_to_list.
    + rewrite Ht. simpl. by rewrite !bool_decide_eq_true_2.
Qed.

(** The rejection conditions of [putStore]; the label conditions are read on
    the store as it would be written ([mergedStore]). *)
Definition putStoreRejects {Version} (ParseVersion : string -> option Version)
    (IsCompatible : Version -> Version -> bool) MergeLabels (cv : Version)
    (c : RaftCluster) (store : Store) : Prop :=
  let s := mergedStore MergeLabels c store in
  let keys := opt_location_labels (rc_opt c) in
  store_id store = 0%N \/
  ParseVersion (store_version store) = None \/
  (exists v, ParseVersion (store_version store) = Some v /\ IsCompatible cv v = false) \/
  (exists i s', GetStore c i = Some s' /\ IsTombstone s' = false /\
                GetID s' <> store_id store /\ GetAddress s' = store_address store) \/
  (opt_strictly_match_label (rc_opt c) = true /\
     ((exists k, k ∈ keys /\ GetLabelValue s k = "") \/
      (exists l, l ∈ store_labels (si_meta s) /\ label_key l ∉ keys))).

Lemma mergedStore_id MergeLabels c store :
  StoresKeyed c -> GetID (mergedStore MergeLabels c store) = store_id store.
Proof.
  intros Hk. unfold mergedStore.
  destruct (GetStore c (store_id store)) as [s|] eqn:Hs; [|reflexivity].
  exact (StoresKeyed_lookup c _ s Hk Hs).
Qed.

(** C6 (amended): [putStore] rejects, leaving the cluster as it is, exactly
    under the conditions above; otherwise it writes the store through
    [putStoreLocked], which succeeds iff the metadata-store write does. *)
Theorem putStore_rejects_iff Version ParseVersion IsCompatible MergeLabels (cv : Version) c store :
  StoresKeyed c ->
  match putStore Version ParseVersion IsCompatible MergeLabels cv c store with
  | (e, c', _) =>
    (putStoreRejects ParseVersion IsCompatible MergeLabels cv c store -> e <> None /\ c' = c) /\
    (~ putStoreRejects ParseVersion IsCompatible MergeLabels cv c store ->
       (storageWritable c = true ->
          e = None /\ GetStore c' (store_id store) = Some (mergedStore MergeLabels c store)) /\
       (storageWritable c = false -> e = Some ErrStorage /\ c' = c))
  end.
Proof.
  intros Hk. unfold putStore, putStoreRejects.
  case_bool_decide as H0.
  { split; [intros _; split; [discriminate|reflexivity]|]. intros Hn; exfalso; apply Hn; left; done. }
  destruct (ParseVersion (store_version store)) as [v|] eqn:Hv.
  2:{ split; [intros _; split; [discriminate|reflexivity]|]. intros Hn; exfalso; apply Hn; right; left; done. }
  destruct (IsCompatible cv v) eqn:Hc; simpl.
  2:{ split; [intros _; split; [discriminate|reflexivity]|].
      intros Hn; exfalso; apply Hn; right; right; left; eauto. }
  destruct (duplicatedAddress c store) eqn:Hd.
  { split; [intros _; split; [discriminate|reflexivity]|].
    intros Hn; exfalso; apply Hn; right; right; right; left. by apply duplicatedAddress_spec. }
  pose proof (checkLabelKeys_spec (opt_strictly_match_label (rc_opt c))
                (mergedStore MergeLabels c store) (opt_location_labels (rc_opt c))) as HK.
  pose proof (checkStoreLabels_spec (opt_strictly_match_label (rc_opt c))
                (opt_location_labels (rc_opt c))
                (store_labels (si_meta (mergedStore MergeLabels c store)))) as HL.
  destruct (checkLabelKeys _ _ _) as [[e1|] l1]; simpl in HK.
  { split; [intros _; split; [discriminate|reflexivity]|].
    intros Hn; exfalso; apply Hn; right; right; right; right.
    destruct (proj1 HK ltac:(discriminate)) as [Hs Hk']. split; [done|left; done]. }
  destruct (checkStoreLabels _ _ _) as [[e2|] l2]; simpl in HL.
  { split; [intros _; split; [discriminate|reflexivity]|].
    intros Hn; exfalso; apply Hn; right; right; right; right.
    destruct (proj1 HL ltac:(discriminate)) as [Hs Hl']. split; [done|right; done]. }
  destruct (putStoreLocked c (mergedStore MergeLabels c store)) as [e c'] eqn:Hp.
  split.
  - intros [H|[H|[(v' & Hv' & Hc')|[Hdup|(Hs & [Hk'|Hl'])]]]].
    + done.
    + congruence.
    + assert (v' = v) by congruence. subst. congruence.
    + apply duplicatedAddress_spec in Hdup. congruence.
    + exfalso. assert (Hne : (None : option Err) <> None) by (apply HK; auto). done.
    + exfalso. assert (Hne : (None : option Err) <> None) by (apply HL; auto). done.
  - intros _. split.
    + intros Hw. destruct (putStoreLocked_cases c _ e c' Hp) as [(_ & He & _)|(Hw' & _)];
        [|congruence].
      subst e. split; [done|].
      rewrite (putStoreLocked_lookup c _ None c' _ Hp eq_refl).
      rewrite (mergedStore_id MergeLabels c store Hk). by rewrite bool_decide_true.
    + intros Hw. destruct (putStoreLocked_cases c _ e c' Hp) as [(Hw' & _)|(_ & He & Hc')];
        [congruence|]. auto.
Qed.

Definition newStore4 : Store := mkStore 4 "a:4" Up StoreType_Performance [].

(** C6 counterexample: store 4 meets every condition (nonzero id, a version
    that parses and is compatible, a fresh address, no strict labels), yet
    [putStore] fails because the metadata-store write fails. *)
Lemma putStore_storage_failure :
  ~ putStoreRejects unitParse alwaysCompatible replaceLabels tt (buryCluster true) newStore4 /\
  (putStore unit unitParse alwaysCompatible replaceLabels tt (buryCluster true) newStore4).1.1
  = Some ErrStorage.
Proof.
  split; [|reflexivity].
  unfold putStoreRejects.
  intros [H|[H|[(v & Hv & Hc)|[Hdup|(Hs & _)]]]].
  - discriminate.
  - discriminate.
  - discriminate.
  - apply duplicatedAddress_spec in Hdup. vm_compute in Hdup. discriminate.
  - discriminate.
Qed.

(** C6 witness: the strict location-label scenario of the spec, on store 4
    with labels zone and rack. *)
Definition zoneRack : ClusterOpts :=
  {| opt_location_labels := ["zone"; "rack"]; opt_strictly_match_label := true |}.

Definition labelCluster : RaftCluster :=
  demoCluster (Some (emptyStorage false)) zoneRack threeStores [].

Definition zoneOnly : Store :=
  mkStore 4 "a:4" Up StoreType_Performance [{| label_key := "zone"; label_value := "z1" |}].
Definition zoneAndRack : Store :=
  mkStore 4 "a:4" Up StoreType_Performance
    [{| label_key := "zone"; label_value := "z1" |}; {| label_key := "rack"; label_value := "r1" |}].

Example strict_label_scenario :
  (putStore unit unitParse alwaysCompatible replaceLabels tt labelCluster zoneOnly).1.1 <> None /\
  (putStore unit unitParse alwaysCompatible replaceLabels tt labelCluster zoneAndRack).1.1 = None.
Proof. split; [discriminate|reflexivity]. Qed.

Lemma putStore_rejects_iff_witness :
  StoresKeyed labelCluster /\
  match putStore unit unitParse alwaysCompatible replaceLabels tt labelCluster zoneOnly with
  | (e, c', _) =>
    (putStoreRejects unitParse alwaysCompatible replaceLabels tt labelCluster zoneOnly ->
       e <> None /\ c' = labelCluster) /\
    (~ putStoreRejects unitParse alwaysCompatible replaceLabels tt labelCluster zoneOnly ->
       (storageWritable labelCluster = true ->
          e = None /\ GetStore c' (store_id zoneOnly) = Some (mergedStore replaceLabels labelCluster zoneOnly)) /\
       (storageWritable labelCluster = false -> e = Some ErrStorage /\ c' = labelCluster))
  end.
Proof.
  split; [apply demoCluster_keyed|].
  exact (putStore_rejects_iff unit unitParse alwaysCompatible replaceLabels tt labelCluster zoneOnly
           (demoCluster_keyed _ _ _ _)).
Defined.

(* ------------------------------------------------------------------ *)
(** Properties of the region heartbeat. *)

(** The epoch test of C1: a cached region with the same id and an older
    incoming version or conf_ver, or no such region and an overlapping cached
    region with a greater version. *)
Definition staleCondition (c : RaftCluster) (region : RegionInfo) : Prop :=
  (exists o, GetRegion c (RegionGetID region) = Some o /\
             ((GetVersion region < GetVersion o)%N \/ (GetConfVer region < GetConfVer o)%N)) \/
  (GetRegion c (RegionGetID region) = None /\
   exists x, x ∈ GetRegions c /\ regions_overlap (ri_meta x) (ri_meta region) = true /\
             (GetVersion region < GetVersion x)%N).

Definition isRegionIsStale (e : option Err) : Prop :=
  exists a b, e = Some (ErrRegionIsStale a b).

Lemma compareOrigin_inl region o e :
  compareOrigin region o = inl e ->
  e = ErrRegionIsStale (ri_meta region) (ri_meta o) /\
  ((GetVersion region < GetVersion o)%N \/ (GetConfVer region < GetConfVer o)%N).
Proof.
  unfold compareOrigin.
  destruct ((GetVersion region <? GetVersion o) || (GetConfVer region <? GetConfVer o))%N eqn:H.
  - intros Heq; inversion Heq; subst. split; [done|].
    apply orb_true_iff in H as [H|H]; apply N.ltb_lt in H; auto.
  - repeat case_match; discriminate.
Qed.

Lemma compareOrigin_stale_inl region o :
  ((GetVersion region < GetVersion o)%N \/ (GetConfVer region < GetConfVer o)%N) ->
  compareOrigin region o = inl (ErrRegionIsStale (ri_meta region) (ri_meta o)).
Proof.
  intros H. unfold compareOrigin.
  replace ((GetVersion region <? GetVersion o) || (GetConfVer region <? GetConfVer o))%N
    with true; [reflexivity|].
  symmetry. apply orb_true_iff. destruct H as [H|H]; [left|right]; by apply N.ltb_lt.
Qed.

Lemma staleOverlap_some c region x :
  staleOverlap c region = Some x ->
  x ∈ GetRegions c /\ regions_overlap (ri_meta x) (ri_meta region) = true /\
  (GetVersion region < GetVersion x)%N.
Proof.
  unfold staleOverlap, GetOverlaps. intros H.
  apply find_some in H as [Hin Hv]. apply list_elem_of_In in Hin.
  apply list_elem_of_filter in Hin as [Ho Hin]. apply N.ltb_lt in Hv. auto.
Qed.

Lemma staleOverlap_none c region x :
  staleOverlap c region = None ->
  x ∈ GetRegions c -> regions_overlap (ri_meta x) (ri_meta region) = true ->
  ~ (GetVersion region < GetVersion x)%N.
Proof.
  unfold staleOverlap, GetOverlaps. intros H Hin Ho Hlt.
  assert (Hx : In x (filter (fun x => regions_overlap (ri_meta x) (ri_meta region) = true)
                            (GetRegions c))).
  { apply list_elem_of_In. by apply list_elem_of_filter. }
  pose proof (find_none _ _ H x Hx) as Hf. simpl in Hf.
  apply N.ltb_lt in Hlt. congruence.
Qed.

(** The heartbeat paths past the epoch test all return nil. *)
Ltac stale_tail Hnot :=
  split; [split; [intros (? & ? & ?); discriminate|intros ?; exfalso; apply Hnot; assumption]
         |intros (? & ? & ?); discriminate].

(** C1: the heartbeat fails with RegionIsStale exactly under the epoch test,
    and then returns before any change (and logs nothing). *)
Theorem processRegionHeartbeat_stale CheckWriteStatus CheckReadStatus c region :
  match processRegionHeartbeat CheckWriteStatus CheckReadStatus c region with
  | (e, c', logs) =>
    (isRegionIsStale e <-> staleCondition c region) /\
    (isRegionIsStale e -> c' = c /\ logs = [])
  end.
Proof.
  unfold processRegionHeartbeat.
  destruct (GetRegion c (RegionGetID region)) as [o|] eqn:Ho.
  - destruct (compareOrigin region o) as [e|[[[kv sc] nw] l1]] eqn:Hc.
    + apply compareOrigin_inl in Hc as [-> Hlt]. split.
      * split; [intros _; unfold staleCondition; left; eauto|intros _; unfold isRegionIsStale; eauto].
      * auto.
    + assert (Hn : ~ ((GetVersion region < GetVersion o)%N \/ (GetConfVer region < GetConfVer o)%N)).
      { intros Hlt. rewrite (compareOrigin_stale_inl region o Hlt) in Hc. discriminate. }
      assert (Hnot : ~ staleCondition c region).
      { unfold staleCondition. intros [(o' & Ho' & Hlt)|(Hno & _)]; [|congruence].
        assert (o' = o) by congruence. subst. auto. }
      repeat case_match; simplify_eq/=; stale_tail Hnot.
  - destruct (staleOverlap c region) as [x|] eqn:Hx.
    + apply staleOverlap_some in Hx as (Hin & Hov & Hlt). split.
      * split; [intros _; unfold staleCondition; right; eauto 6|intros _; unfold isRegionIsStale; eauto].
      * auto.
    + assert (Hnot : ~ staleCondition c region).
      { unfold staleCondition. intros [(o' & Ho' & _)|(_ & x & Hin & Hov & Hlt)]; [congruence|].
        exact (staleOverlap_none c region x Hx Hin Hov Hlt). }
      repeat case_match; simplify_eq/=; stale_tail Hnot.
Qed.

(** C4: the metadata-store write failing on the heartbeat path. *)
Lemma updateStoreStatusLocked_frame id c :
  Regions (updateStoreStatusLocked id c) = Regions c /\
  rc_storage (updateStoreStatusLocked id c) = rc_storage c.
Proof. unfold updateStoreStatusLocked. by case_match. Qed.

Lemma foldl_frame {A} (f : RaftCluster -> A -> RaftCluster) (l : list A) c :
  (forall c a, Regions (f c a) = Regions c /\ rc_storage (f c a) = rc_storage c) ->
  Regions (foldl f c l) = Regions c /\ rc_storage (foldl f c l) = rc_storage c.
Proof.
  intros Hf. revert c. induction l as [|a l IH]; intros c; simpl; [done|].
  destruct (IH (f c a)) as [H1 H2]. destruct (Hf c a) as [H3 H4]. split; congruence.
Qed.

Lemma deleteOverlaps_fail kv overlaps :
  kv_fail kv = true -> (deleteOverlaps kv overlaps).1 = kv.
Proof.
  intros Hf. induction overlaps as [|item rest IH]; simpl; [done|].
  unfold DeleteRegion. rewrite Hf. destruct (deleteOverlaps kv rest) as [kv2 l] eqn:Hd.
  simpl in *. done.
Qed.

Definition framed (c c' : RaftCluster) : Prop :=
  Regions c' = Regions c /\ rc_storage c' = rc_storage c.

Lemma framed_trans c1 c2 c3 : framed c1 c2 -> framed c2 c3 -> framed c1 c3.
Proof. unfold framed. intros [? ?] [? ?]. split; congruence. Qed.

Lemma framed_mapStats f c : framed c (mapStats f c).
Proof. done. Qed.

Lemma framed_clearDefuncts ovs c : framed c (clearDefuncts ovs c).
Proof. apply foldl_frame. intros; done. Qed.

Lemma framed_updateStores ps c : framed c (updateStores ps c).
Proof. apply foldl_frame. intros; apply updateStoreStatusLocked_frame. Qed.

Lemma framed_applyHot items c : framed c (applyHot items c).
Proof. apply foldl_frame. intros; done. Qed.

Lemma applyRegionHeartbeat_cache c origin region isNew items kv :
  rc_storage c = Some kv -> kv_fail kv = true ->
  Regions (applyRegionHeartbeat c origin region true isNew items).1
    = bc_regions (PutRegion region (rc_core c)).1 /\
  rc_storage (applyRegionHeartbeat c origin region true isNew items).1 = Some kv.
Proof.
  intros Hs Hf. unfold applyRegionHeartbeat.
  set (c1 := if isNew then mapStats (collectPrepare region) c else c).
  assert (Hc1 : rc_core c1 = rc_core c /\ rc_storage c1 = rc_storage c)
    by (subst c1; destruct isNew; done).
  destruct Hc1 as [Hc1 Hs1]. rewrite Hc1.
  destruct (PutRegion region (rc_core c)) as [core' overlaps] eqn:Hp. simpl.
  rewrite Hs1, Hs. simpl.
  destruct (deleteOverlaps kv overlaps) as [kv' l] eqn:Hd.
  pose proof (deleteOverlaps_fail kv overlaps Hf) as Hkv. rewrite Hd in Hkv. simpl in Hkv. subst kv'.
  set (cb := with_storage (Some kv) (with_core core' c1)).
  assert (Hcd : framed cb (match origin with
                           | Some o => updateStores (GetPeers o) (clearDefuncts overlaps cb)
                           | None => clearDefuncts overlaps cb end)).
  { destruct origin as [o|].
    - eapply framed_trans; [apply framed_clearDefuncts|apply framed_updateStores].
    - apply framed_clearDefuncts. }
  assert (Hall : framed cb (applyHot items (mapStats (observeRegion region)
                   (updateStores (GetPeers region)
                      (match origin with
                       | Some o => updateStores (GetPeers o) (clearDefuncts overlaps cb)
                       | None => clearDefuncts overlaps cb end))))).
  { eapply framed_trans; [exact Hcd|].
    eapply framed_trans; [apply framed_updateStores|].
    eapply framed_trans; [apply framed_mapStats|apply framed_applyHot]. }
  destruct Hall as [R S]. simpl. rewrite R, S. done.
Qed.

(** Every flag combination that sets saveKV also sets saveCache. *)
Lemma compareOrigin_kv_cache region o sc nw l :
  compareOrigin region o = inr (true, sc, nw, l) -> sc = true.
Proof.
  unfold compareOrigin. intros H.
  repeat (case_match; simplify_eq/=); rewrite ?orb_true_r; try reflexivity; discriminate.
Qed.

(** The heartbeats that set saveKV: a new region that passes the overlap
    test, or a cached one whose comparison sets it. *)
Definition setsSaveKV (c : RaftCluster) (region : RegionInfo) : Prop :=
  (GetRegion c (RegionGetID region) = None /\ staleOverlap c region = None) \/
  (exists o sc nw l, GetRegion c (RegionGetID region) = Some o /\
                     compareOrigin region o = inr (true, sc, nw, l)).

Lemma with_changed_frame ch c : rc_core (with_changed ch c) = rc_core c /\
  rc_storage (with_changed ch c) = rc_storage c.
Proof. done. Qed.

(** C4: when the metadata-store write fails, the heartbeat logs it, still
    puts the region into the cache, and returns nil. *)
Theorem processRegionHeartbeat_save_failure CheckWriteStatus CheckReadStatus c region kv :
  rc_storage c = Some kv -> kv_fail kv = true -> setsSaveKV c region ->
  match processRegionHeartbeat CheckWriteStatus CheckReadStatus c region with
  | (e, c', logs) =>
    e = None /\ (LogError, "failed to save region to storage") ∈ logs /\
    Regions c' = bc_regions (PutRegion region (rc_core c)).1 /\ rc_storage c' = Some kv
  end.
Proof.
  intros Hs Hf Hkv. unfold processRegionHeartbeat.
  assert (Hflags : exists o' sc nw l,
             match GetRegion c (RegionGetID region) with
             | None => staleOverlap c region
             | Some _ => None end = None /\
             match GetRegion c (RegionGetID region) with
             | None => inr (true, true, true, [])
             | Some o => compareOrigin region o end = inr (true, sc, nw, l) /\
             sc = true /\ o' = GetRegion c (RegionGetID region)).
  { destruct Hkv as [(Hn & Hso)|(o & sc & nw & l & Ho & Hc)].
    - exists None, true, true, []. rewrite Hn, Hso. auto.
    - exists (Some o), sc, nw, l. rewrite Ho, Hc. repeat split; auto.
      eapply compareOrigin_kv_cache; eauto. }
  destruct Hflags as (o' & sc & nw & l & H1 & H2 & -> & Ho').
  rewrite H1, H2. rewrite Hs. unfold SaveRegion. rewrite Hf. simpl.
  rewrite andb_false_r. simpl.
  set (c1 := with_changed (trySend region (rc_changed_regions c)) (with_storage (Some kv) c)).
  assert (Hc1 : rc_storage c1 = Some kv) by done.
  destruct (applyRegionHeartbeat_cache c1 (GetRegion c (RegionGetID region)) region nw
              (CheckWriteStatus c region ++ CheckReadStatus c region) kv Hc1 Hf) as [R S].
  destruct (applyRegionHeartbeat c1 _ region true nw _) as [c2 logs3] eqn:Ha.
  simpl in R, S. split; [done|]. split.
  - set_solver.
  - split; [exact R|exact S].
Qed.

Definition noHot (_ : RaftCluster) (_ : RegionInfo) : list HotPeerStat := [].

Definition mkPeer (id sid : N) : Peer :=
  {| peer_id := id; peer_store_id := sid; peer_is_learner := false |}.

Definition mkRegion (id : N) (sk ek : list Byte.byte) (v cv : N) (peers : list Peer) : RegionInfo :=
  {| ri_meta := {| region_id := id; start_key := sk; end_key := ek;
                   epoch_version := v; epoch_conf_ver := cv; region_peers := peers |};
     ri_leader := head peers; ri_down_peers := []; ri_pending_peers := [];
     ri_approximate_size := 1; ri_approximate_keys := 1;
     ri_bytes_written := 0; ri_bytes_read := 0; ri_keys_written := 0; ri_keys_read := 0 |}.

Definition R1 (v cv : N) : RegionInfo := mkRegion 1 [] [] v cv [mkPeer 11 1].

Definition regionCluster (fail : bool) (regions : list RegionInfo) : RaftCluster :=
  demoCluster (Some (emptyStorage fail)) noLabels threeStores regions.

(** The spec's scenario S1: R1 cached at version 5, conf_ver 2; a heartbeat
    at version 4, conf_ver 3 is stale and leaves the cluster as it is. *)
Example stale_heartbeat_scenario :
  processRegionHeartbeat noHot noHot (regionCluster false [R1 5 2]) (R1 4 3)
  = (Some (ErrRegionIsStale (ri_meta (R1 4 3)) (ri_meta (R1 5 2))), regionCluster false [R1 5 2], []).
Proof. reflexivity. Qed.

(** Regions A = [a, m) and B = [m, +inf) at version 1 and C = [a, +inf). *)
Definition regionA : RegionInfo := mkRegion 2 [Byte.x61] [Byte.x6d] 1 1 [mkPeer 21 1].
Definition regionB : RegionInfo := mkRegion 3 [Byte.x6d] [] 1 1 [mkPeer 31 1].
Definition regionC (v : N) : RegionInfo := mkRegion 4 [Byte.x61] [] v 1 [mkPeer 41 1].

Example overlap_stale_check :
  (processRegionHeartbeat noHot noHot (regionCluster false [regionA; regionB]) (regionC 0)).1.1
  = Some (ErrRegionIsStale (ri_meta (regionC 0)) (ri_meta regionA)) \/
  (processRegionHeartbeat noHot noHot (regionCluster false [regionA; regionB]) (regionC 0)).1.1
  = Some (ErrRegionIsStale (ri_meta (regionC 0)) (ri_meta regionB)).
Proof. vm_compute. auto. Qed.

(** C1 witness: the scenario S1. *)
Lemma processRegionHeartbeat_stale_witness :
  match processRegionHeartbeat noHot noHot (regionCluster false [R1 5 2]) (R1 4 3) with
  | (e, c', logs) =>
    (isRegionIsStale e <-> staleCondition (regionCluster false [R1 5 2]) (R1 4 3)) /\
    (isRegionIsStale e -> c' = regionCluster false [R1 5 2] /\ logs = [])
  end.
Proof. exact (processRegionHeartbeat_stale noHot noHot (regionCluster false [R1 5 2]) (R1 4 3)). Defined.

(** C4 witness: region C is new (no cached region overlaps it at a greater
    version) and the metadata store fails. *)
Lemma processRegionHeartbeat_save_failure_witness :
  rc_storage (regionCluster true [regionA; regionB]) = Some (emptyStorage true) /\
  kv_fail (emptyStorage true) = true /\
  setsSaveKV (regionCluster true [regionA; regionB]) (regionC 2) /\
  match processRegionHeartbeat noHot noHot (regionCluster true [regionA; regionB]) (regionC 2) with
  | (e, c', logs) =>
    e = None /\ (LogError, "failed to save region to storage") ∈ logs /\
    Regions c' = bc_regions (PutRegion (regionC 2) (rc_core (regionCluster true [regionA; regionB]))).1 /\
    rc_storage c' = Some (emptyStorage true)
  end.
Proof.
  assert (Hk : setsSaveKV (regionCluster true [regionA; regionB]) (regionC 2))
    by (left; split; vm_compute; reflexivity).
  split; [reflexivity|]. split; [reflexivity|]. split; [exact Hk|].
  exact (processRegionHeartbeat_save_failure noHot noHot (regionCluster true [regionA; regionB])
           (regionC 2) (emptyStorage true) eq_refl eq_refl Hk).
Defined.

(** After the heartbeat of C, the cache holds only C (A and B evicted). *)
Example overlap_eviction_scenario :
  map_to_list (Regions (processRegionHeartbeat noHot noHot
                          (regionCluster false [regionA; regionB]) (regionC 2)).1.2)
  = [(4%N, regionC 2)].
Proof. vm_compute. reflexivity. Qed.

(** A concrete balance-region setting: the selector takes the first non-nil
    store of the include list, every sampler returns region [R1], one
    replica is expected, and the replica checker always finds store 2. *)
Definition firstStore (l : list (option StoreInfo)) (_ : list N) : Go (option StoreInfo) :=
  Done (head (omap id l)).
Definition alwaysR1 (_ : RegionPick) (_ : N) (_ : nat) : option RegionInfo := Some (R1 5 2).
Definition store2 (_ : RegionInfo) (_ : N) (_ _ : list N) : N := 2.
Definition balanceAlways (_ _ : StoreInfo) (_ : RegionInfo) : bool := true.
Definition allocOn (sid : N) : option Peer := Some (mkPeer 99 sid).
Definition moveOp (r : RegionInfo) (src tgt pid : N) : option Operator :=
  Some {| op_desc := "balance-region"; op_region_id := RegionGetID r;
          op_source := src; op_target := tgt |}.

Definition sched0 : SchedState :=
  {| sc_hits := newHitsStoreBuilder hitsStoreTTL hitsStoreCountThreshold; sc_rng := 0 |}.

Definition scheduleWith (hot : RegionInfo -> bool) : Go (option (list Operator) * SchedState) :=
  Schedule firstStore alwaysR1 hot 1 store2 balanceAlways allocOn moveOp
    sched0 0 (regionCluster false [R1 5 2]).

Definition hotState : SchedState :=
  Eval vm_compute in
    match scheduleWith (fun _ => true) with Done (_, st) => st | Panic _ => sched0 end.

(** With a cold region the sampled source reaches [transferPeer], whose
    loop over the excluded list meets the nil entries [make] left at its
    front: [GetID] on a nil store panics. *)
Example cold_region_reaches_nil_store :
  scheduleWith (fun _ => false) = Panic "invalid memory address or nil pointer dereference".
Proof. vm_compute. reflexivity. Qed.

(** C7 witness: every sampled region is hot. *)
Lemma Schedule_skips_hot_witness :
  scheduleWith (fun _ => true) = Done (None, hotState) /\
  ((True /\
   ((forall k sid n r, alwaysR1 k sid n = Some r -> (fun _ => true) r = true) -> @None (list Operator) = None))).
Proof.
  assert (Hrun : scheduleWith (fun _ => true) = Done (None, hotState)) by (vm_compute; reflexivity).
  split; [exact Hrun|].
  exact (Schedule_skips_hot firstStore alwaysR1 (fun _ => true) 1 store2 balanceAlways allocOn moveOp
           sched0 0 (regionCluster false [R1 5 2]) None hotState Hrun).
Defined.

(** A store whose type tag is neither Performance nor Storage. *)
Definition otherStore : StoreInfo :=
  NewStoreInfo (mkStore 7 "a:7" Up (StoreType_Other 5) []).

(** C2 counterexample: such a store is put in the performance list, not the
    storage list. *)
Lemma partition_other_type_to_performance :
  Some otherStore ∈ (partitionStores [otherStore]).2 /\
  Some otherStore ∉ (partitionStores [otherStore]).1.
Proof.
  vm_compute. split.
  - right. left.
  - intros Hin. inversion Hin as [|? ? ? Hin']; subst. inversion Hin'.
Qed.

(* ------------------------------------------------------------------ *)
(** ** The source cooldown *)

(** 301 failed selections of one source, 4 minutes apart. *)
Definition spreadAttempts : list Z := (fun i => Z.of_nat i * 4 * Minute)%Z <$> seq 0 301.
Definition spreadNow : Z := 300 * 4 * Minute.
Definition coolStore : StoreInfo := NewStoreInfo (mkStore 1 "a:1" Up StoreType_Performance []).

(** C8 counterexample: at the time of the last attempt only two attempts lie
    within the last 5 minutes, yet the source filter rejects the store: each
    [put] less than [ttl] after the previous one increments the count. *)
Lemma cooldown_counts_spread_attempts :
  (hitsFilter spreadNow (Some coolStore) None
     (putAll coolStore spreadAttempts (newHitsStoreBuilder hitsStoreTTL hitsStoreCountThreshold))).1
  = true /\
  spec_source_rejected spreadNow spreadAttempts = false.
Proof. split; vm_compute; reflexivity. Qed.

(** C8 (amended): the source filter rejects store [s] exactly when the
    record at key "s<id>" exists, was last touched at most [ttl] ago and
    has a count of at least [threshold]; [put] creates that record with
    count 0, and on an existing record sets the count to 0 when at least
    [ttl] passed since its last touch and increments it otherwise, the
    touch time becoming now; [remove] deletes it; [ttl] is 5 minutes and
    [threshold] is 30 * 10 = 300. *)
Theorem source_cooldown_rule now s h :
  let key := "s" +:+ pretty (GetID s) in
  ((hitsFilter now (Some s) None h).1 = true <->
     exists item, hits h !! key = Some item /\ (now - lastTime item <= ttl h)%Z /\
                  (threshold h <= count item)%Z) /\
  hits (hitsPut now (Some s) None h) !! key =
    Some {| lastTime := now;
            count := match hits h !! key with
                     | Some item => if bool_decide (now - lastTime item >= ttl h)%Z then 0%Z
                                    else (count item + 1)%Z
                     | None => 0%Z
                     end |} /\
  hits (hitsRemove (Some s) None h) !! key = None /\
  hitsStoreTTL = (5 * 60 * 1000000000)%Z /\ hitsStoreCountThreshold = 300%Z.
Proof.
  intros key.
  assert (Hk : getKey (Some s) None = key) by reflexivity.
  assert (Hne : key <> "") by (unfold key; discriminate).
  split; [|split; [|split; [|split; reflexivity]]].
  - unfold hitsFilter. rewrite Hk, bool_decide_false by exact Hne.
    destruct (hits h !! key) as [item|] eqn:Hi.
    + destruct (bool_decide (now - lastTime item <= ttl h)%Z) eqn:H1;
        destruct (bool_decide (count item >= threshold h)%Z) eqn:H2; simpl;
        apply bool_decide_eq_true in H1 || apply bool_decide_eq_false in H1;
        apply bool_decide_eq_true in H2 || apply bool_decide_eq_false in H2;
        split; intros Hx; try discriminate; try done;
        try (destruct Hx as (? & [= <-] & ? & ?); lia);
        eexists; split; [done|lia].
    + simpl. split; [discriminate|]. intros (? & ? & _). discriminate.
  - unfold hitsPut. rewrite Hk, bool_decide_false by exact Hne.
    destruct (hits h !! key); simpl; by rewrite lookup_insert_eq.
  - unfold hitsRemove. rewrite Hk.
    destruct (hits h !! key) eqn:Hi; [|exact Hi].
    rewrite bool_decide_true by exact Hne. simpl. apply lookup_delete_eq.
Qed.

(* ------------------------------------------------------------------ *)
(** ** Validation of the schedule configuration *)

Definition nanTolerant (scheds : list SchedulerConfig) : ScheduleConfig :=
  {| TolerantSizeRatio := nan; LowSpaceRatio := 0.75; HighSpaceRatio := 0.5;
     Schedulers := scheds |}.

(** C9: a tolerant-size-ratio of NaN is not nonnegative, yet every comparison
    with NaN is false, so [Validate] accepts it (with valid space ratios and
    registered schedulers). *)
Theorem Validate_accepts_nan IsSchedulerRegistered scheds :
  Forall (fun sc => IsSchedulerRegistered (sc_type sc) = true) scheds ->
  Validate IsSchedulerRegistered (nanTolerant scheds) = None /\
  (0 <=? TolerantSizeRatio (nanTolerant scheds))%float = false.
Proof.
  intros Hreg. split; [|reflexivity].
  unfold Validate. cbn -[find].
  replace (find _ scheds) with (@None SchedulerConfig); [reflexivity|].
  induction Hreg as [|sc l Hsc _ IH]; [reflexivity|].
  simpl. rewrite Hsc. exact IH.
Qed.

(** C9 witness: the default scheduler list, all registered. *)
Lemma Validate_accepts_nan_witness :
  Forall (fun sc => (fun _ => true) (sc_type sc) = true)
    [{| sc_type := "balance-region"; sc_args := []; sc_disable := false; sc_args_payload := "" |}] /\
  Validate (fun _ => true)
    (nanTolerant [{| sc_type := "balance-region"; sc_args := []; sc_disable := false;
                     sc_args_payload := "" |}]) = None /\
  (0 <=? TolerantSizeRatio (nanTolerant [{| sc_type := "balance-region"; sc_args := [];
                                             sc_disable := false; sc_args_payload := "" |}]))%float
  = false.
Proof.
  assert (Hf : Forall (fun sc => (fun _ : string => true) (sc_type sc) = true)
    [{| sc_type := "balance-region"; sc_args := []; sc_disable := false; sc_args_payload := "" |}])
    by (repeat constructor).
  split; [exact Hf|].
  exact (Validate_accepts_nan (fun _ => true) _ Hf).
Defined.

(* ================================================================== *)
(** * Beyond the specification: filters, cooldown, configuration and
      cluster maintenance *)

(* ------------------------------------------------------------------ *)
(** ** Store filters ([schedule/filter]) *)

(** [opt.Options]: the option getters the filters read. *)
Record Options := {
  GetMaxStoreDownTime : Z;
  GetMaxPendingPeerCount : N;
  GetMaxSnapshotCount : N;
  GetLowSpaceRatio : float;
  CheckLabelProperty : string -> list StoreLabel -> bool
}.

(** [opt.RejectLeader] *)
Definition RejectLeader : string := "reject-leader".

(** Go's [int(x)] on a [uint64]: the bits read as a two's complement [int64]. *)
Definition uint64_to_int (x : N) : Z :=
  let z := (Z.of_N x mod 2 ^ 64)%Z in if (z <? 2 ^ 63)%Z then z else (z - 2 ^ 64)%Z.

(** [core.StoreInfo] getters over the fields of the model. *)
Definition GetIsBusy (s : StoreInfo) : bool := ss_is_busy (si_stats s).
Definition GetPendingPeerCount (s : StoreInfo) : Z := Z.of_nat (si_pending_peer_count s).
Definition GetSendingSnapCount (s : StoreInfo) : N := ss_sending_snap_count (si_stats s).
Definition GetReceivingSnapCount (s : StoreInfo) : N := ss_receiving_snap_count (si_stats s).
Definition GetApplyingSnapCount (s : StoreInfo) : N := ss_applying_snap_count (si_stats s).
Definition IsBlocked (s : StoreInfo) : bool := si_blocked s.
Definition GetLabels (s : StoreInfo) : list StoreLabel := store_labels (si_meta s).

(** The [Filter] interface. *)
Record Filter := {
  f_scope : string;
  f_type : string;
  f_source : Options -> StoreInfo -> bool;
  f_target : Options -> StoreInfo -> bool
}.

(** [filter.Source] / [filter.Target]: the first filter that rejects decides. *)
Fixpoint filter_Source (o : Options) (store : StoreInfo) (filters : list Filter) : bool :=
  match filters with
  | [] => false
  | f :: fs => if f_source f o store then true else filter_Source o store fs
  end.

Fixpoint filter_Target (o : Options) (store : StoreInfo) (filters : list Filter) : bool :=
  match filters with
  | [] => false
  | f :: fs => if f_target f o store then true else filter_Target o store fs
  end.

Section Filters.
(** [core.StoreInfo] methods outside these sources: [DownTime] (time since the
    last heartbeat), [IsOverloaded], [IsDisconnected]. *)
Variable DownTime : StoreInfo -> Z.
Variable IsOverloaded : StoreInfo -> bool.
Variable IsDisconnected : StoreInfo -> bool.

Definition NewOverloadFilter (scope : string) : Filter :=
  {| f_scope := scope; f_type := "overload-filter";
     f_source := fun _ store => IsOverloaded store;
     f_target := fun _ store => IsOverloaded store |}.

Definition NewStateFilter (scope : string) : Filter :=
  {| f_scope := scope; f_type := "state-filter";
     f_source := fun _ store => IsTombstone store;
     f_target := fun _ store => negb (IsUp store) |}.

Definition healthFilter_filter (o : Options) (store : StoreInfo) : bool :=
  if GetIsBusy store then true else (GetMaxStoreDownTime o <? DownTime store)%Z.

Definition NewHealthFilter (scope : string) : Filter :=
  {| f_scope := scope; f_type := "health-filter";
     f_source := healthFilter_filter; f_target := healthFilter_filter |}.

Definition pendingPeerCountFilter_filter (o : Options) (store : StoreInfo) : bool :=
  if (GetMaxPendingPeerCount o =? 0)%N then false
  else (uint64_to_int (GetMaxPendingPeerCount o) <? GetPendingPeerCount store)%Z.

Definition NewPendingPeerCountFilter (scope : string) : Filter :=
  {| f_scope := scope; f_type := "pending-peer-filter";
     f_source := pendingPeerCountFilter_filter; f_target := pendingPeerCountFilter_filter |}.

Definition snapshotCountFilter_filter (o : Options) (store : StoreInfo) : bool :=
  (GetMaxSnapshotCount o <? GetSendingSnapCount store)%N ||
  (GetMaxSnapshotCount o <? GetReceivingSnapCount store)%N ||
  (GetMaxSnapshotCount o <? GetApplyingSnapCount store)%N.

Definition NewSnapshotCountFilter (scope : string) : Filter :=
  {| f_scope := scope; f_type := "snapshot-filter";
     f_source := snapshotCountFilter_filter; f_target := snapshotCountFilter_filter |}.

Record StoreStateFilter := {
  ActionScope : string;
  TransferLeader : bool;
  MoveRegion : bool
}.

Definition filterMoveRegion (o : Options) (store : StoreInfo) : bool :=
  if GetIsBusy store then true
  else if IsOverloaded store then true
  else if (GetMaxSnapshotCount o <? GetSendingSnapCount store)%N ||
          (GetMaxSnapshotCount o <? GetReceivingSnapCount store)%N ||
          (GetMaxSnapshotCount o <? GetApplyingSnapCount store)%N then true
  else false.

Definition StoreStateFilter_Source (f : StoreStateFilter) (o : Options) (store : StoreInfo) : bool :=
  if IsTombstone store || (GetMaxStoreDownTime o <? DownTime store)%Z then true
  else if TransferLeader f && (IsDisconnected store || IsBlocked store) then true
  else if MoveRegion f && filterMoveRegion o store then true
  else false.

Definition StoreStateFilter_Target (f : StoreStateFilter) (opts : Options) (store : StoreInfo) : bool :=
  if IsTombstone store || IsOffline store || (GetMaxStoreDownTime opts <? DownTime store)%Z
  then true
  else if TransferLeader f &&
          (IsDisconnected store || IsBlocked store || GetIsBusy store ||
           CheckLabelProperty opts RejectLeader (GetLabels store)) then true
  else if MoveRegion f then
    if (0 <? GetMaxPendingPeerCount opts)%N &&
       (uint64_to_int (GetMaxPendingPeerCount opts) <? GetPendingPeerCount store)%Z then true
    else if filterMoveRegion opts store then true
    else false
  else false.

Definition StoreStateFilter_filter (f : StoreStateFilter) : Filter :=
  {| f_scope := ActionScope f; f_type := "store-state-filter";
     f_source := StoreStateFilter_Source f; f_target := StoreStateFilter_Target f |}.
End Filters.

(** [BlacklistType] flags: [1 << iota]. *)
Definition BlacklistSource : Z := 1.
Definition BlacklistTarget : Z := 2.

Record BlacklistStoreFilter := {
  bl_scope : string;
  blacklist : gset N;
  bl_flag : Z
}.

Definition NewBlacklistStoreFilter (scope : string) (typ : Z) : BlacklistStoreFilter :=
  {| bl_scope := scope; blacklist := ∅; bl_flag := typ |}.

Definition BlacklistAdd (storeID : N) (f : BlacklistStoreFilter) : BlacklistStoreFilter :=
  {| bl_scope := bl_scope f; blacklist := {[storeID]} ∪ blacklist f; bl_flag := bl_flag f |}.

Definition BlacklistFilter (f : BlacklistStoreFilter) (store : StoreInfo) : bool :=
  bool_decide (GetID store ∈ blacklist f).

Definition BlacklistSourceFn (f : BlacklistStoreFilter) (_ : Options) (store : StoreInfo) : bool :=
  if negb (Z.land (bl_flag f) BlacklistSource =? BlacklistSource)%Z then false
  else BlacklistFilter f store.

Definition BlacklistTargetFn (f : BlacklistStoreFilter) (_ : Options) (store : StoreInfo) : bool :=
  if negb (Z.land (bl_flag f) BlacklistTarget =? BlacklistTarget)%Z then false
  else BlacklistFilter f store.

(** The filter [buildSourceFilter] returns: a source blacklist to which it
    adds the ids of the stores [hitsFilter] rejects. *)
Definition sourceBlacklistOf (scope : string) (ids : list N) : BlacklistStoreFilter :=
  foldl (fun f id => BlacklistAdd id f) (NewBlacklistStoreFilter scope BlacklistSource) ids.

(** [NewDistinctScoreFilter]; the source may be nil. *)
Record DistinctScoreFilter := {
  ds_scope : string;
  ds_labels : list string;
  ds_stores : list StoreInfo;
  safeScore : float
}.

Section DistinctScore.
(** [core.DistinctScore], outside these sources. *)
Variable DistinctScore : list string -> list StoreInfo -> StoreInfo -> float.

(** [make([]*core.StoreInfo, 0, len(stores)-1)] panics on a negative
    capacity; [s.GetID() == source.GetID()] panics on a nil source. *)
Definition NewDistinctScoreFilter (scope : string) (labels : list string)
    (stores : list StoreInfo) (source : option StoreInfo) : Go DistinctScoreFilter :=
  if (length stores =? 0)%nat then Panic "makeslice: cap out of range" else
  newStores ← foldl (fun acc s =>
                       acc' ← acc;
                       sid ← ptrGetID source;
                       if bool_decide (GetID s = sid) then Done acc' else Done (acc' ++ [s]))
                    (Done []) stores;
  match source with
  | None => Panic "invalid memory address or nil pointer dereference"
  | Some src =>
      Done {| ds_scope := scope; ds_labels := labels; ds_stores := newStores;
              safeScore := DistinctScore labels newStores src |}
  end.

Definition distinctScoreFilter_Source (f : DistinctScoreFilter) (_ : Options) (_ : StoreInfo) : bool :=
  false.

Definition distinctScoreFilter_Target (f : DistinctScoreFilter) (_ : Options) (store : StoreInfo) : bool :=
  (DistinctScore (ds_labels f) (ds_stores f) store <? safeScore f)%float.
End DistinctScore.

(** [balanceRegionScheduler.GetName] and the store filter
    [newBalanceRegionScheduler] hands to its selector. *)
Definition balanceRegionName : string := "balance-region-scheduler".

Definition balanceRegion_GetName (name : string) : string :=
  if bool_decide (name <> "") then name else balanceRegionName.

Definition balanceRegionStateFilter (name : string) : StoreStateFilter :=
  {| ActionScope := balanceRegion_GetName name; TransferLeader := false; MoveRegion := true |}.

Section FilterProps.
Variable DownTime : StoreInfo -> Z.
Variable IsOverloaded : StoreInfo -> bool.
Variable IsDisconnected : StoreInfo -> bool.

(** [StoreStateFilter] is stricter on targets than on sources: whatever its
    flags, a store it rejects as a source it also rejects as a target. *)
Lemma StoreStateFilter_source_implies_target f o store :
  StoreStateFilter_Source DownTime IsOverloaded IsDisconnected f o store = true ->
  StoreStateFilter_Target DownTime IsOverloaded IsDisconnected f o store = true.
Proof.
  unfold StoreStateFilter_Source, StoreStateFilter_Target.
  destruct (IsTombstone store), (GetMaxStoreDownTime o <? DownTime store)%Z,
    (IsOffline store), (TransferLeader f), (MoveRegion f), (IsDisconnected store),
    (IsBlocked store), (GetIsBusy store),
    (CheckLabelProperty o RejectLeader (GetLabels store)),
    (filterMoveRegion IsOverloaded o store); simpl; try done; by case_match.
Qed.

(** The store filter of the balance-region scheduler ([MoveRegion] set,
    [TransferLeader] unset) rejects a source exactly when one of the state,
    health, snapshot and overload filters does.  The state, health,
    pending-peer, snapshot and overload filters together reject a target
    exactly when it does or the store's state is an unnamed code: the state
    filter rejects every target that is not Up, the store filter only
    Tombstone and Offline ones. *)
Lemma balanceRegionStateFilter_decomposes name o store :
  filter_Target o store
    [NewStateFilter ""; NewHealthFilter DownTime ""; NewPendingPeerCountFilter "";
     NewSnapshotCountFilter ""; NewOverloadFilter IsOverloaded ""] =
  StoreStateFilter_Target DownTime IsOverloaded IsDisconnected
    (balanceRegionStateFilter name) o store
  || negb (IsUp store || IsOffline store || IsTombstone store) /\
  StoreStateFilter_Source DownTime IsOverloaded IsDisconnected
    (balanceRegionStateFilter name) o store =
  filter_Source o store
    [NewStateFilter ""; NewHealthFilter DownTime ""; NewSnapshotCountFilter "";
     NewOverloadFilter IsOverloaded ""].
Proof.
  simpl. unfold StoreStateFilter_Target, StoreStateFilter_Source,
    balanceRegionStateFilter, filterMoveRegion, healthFilter_filter,
    pendingPeerCountFilter_filter, snapshotCountFilter_filter,
    IsTombstone, IsUp, IsOffline; simpl.
  destruct (GetState store); simpl;
  destruct (GetIsBusy store), (GetMaxStoreDownTime o <? DownTime store)%Z,
    (IsOverloaded store); simpl; auto;
  destruct (GetMaxPendingPeerCount o) as [|p]; simpl; auto;
  repeat case_match; auto.
Qed.
End FilterProps.

(** A [BlacklistStoreFilter] built by [NewBlacklistStoreFilter] with flag
    [BlacklistSource] and [Add] rejects as a source exactly the added ids,
    and never rejects a target. *)
Lemma sourceBlacklistOf_spec scope ids o store :
  BlacklistSourceFn (sourceBlacklistOf scope ids) o store = bool_decide (GetID store ∈ ids) /\
  BlacklistTargetFn (sourceBlacklistOf scope ids) o store = false.
Proof.
  assert (Hgen : forall f, bl_flag (foldl (fun f id => BlacklistAdd id f) f ids) = bl_flag f /\
    forall x, x ∈ blacklist (foldl (fun f id => BlacklistAdd id f) f ids) <->
              x ∈ blacklist f \/ x ∈ ids).
  { induction ids as [|i ids IH]; intros f; simpl.
    - split; [done|]. intros x. rewrite elem_of_nil. tauto.
    - destruct (IH (BlacklistAdd i f)) as [Hf Hx]. split; [done|].
      intros x. rewrite Hx. simpl. rewrite elem_of_union, elem_of_singleton, elem_of_cons. tauto. }
  unfold sourceBlacklistOf. destruct (Hgen (NewBlacklistStoreFilter scope BlacklistSource)) as [Hf Hx].
  unfold BlacklistSourceFn, BlacklistTargetFn, BlacklistFilter. rewrite Hf. simpl.
  split; [|done].
  apply bool_decide_ext. rewrite Hx. simpl. set_solver.
Qed.

(* ------------------------------------------------------------------ *)
(** ** Properties of the hits cooldown *)

(** Whether a string has no dash: the store ids [pretty] prints have none,
    which keeps a source key apart from every source-target key. *)
Fixpoint noDash (s : string) : bool :=
  match s with
  | EmptyString => true
  | String a s' => negb (bool_decide (a = "-"%char)) && noDash s'
  end.

Lemma noDash_app s1 s2 : noDash (s1 +:+ s2) = noDash s1 && noDash s2.
Proof. induction s1 as [|a s1 IH]; simpl; [done|]. by rewrite IH, andb_assoc. Qed.

Lemma noDash_pretty_N_go x s : noDash s = true -> noDash (pretty_N_go x s) = true.
Proof.
  revert s. induction (N.lt_wf_0 x) as [x _ IH]; intros s Hs.
  assert (x = 0 \/ 0 < x)%N as [->|Hx] by lia; [by rewrite pretty_N_go_0|].
  rewrite pretty_N_go_step by done. apply IH; [by apply N.div_lt|].
  simpl. rewrite Hs, andb_true_r. unfold pretty_N_char. by repeat case_match.
Qed.

Lemma noDash_pretty (x : N) : noDash (pretty x) = true.
Proof. unfold pretty, pretty_N. case_decide; [done|]. by apply noDash_pretty_N_go. Qed.

Lemma string_app_cancel_l p x y : p +:+ x = p +:+ y -> x = y.
Proof. induction p as [|a p IH]; simpl; [done|]. intros [= H]. auto. Qed.

Lemma getKey_source_inj a b :
  getKey (Some a) None = getKey (Some b) None -> GetID a = GetID b.
Proof. simpl. intros H. apply (string_app_cancel_l "s") in H. by apply (inj pretty). Qed.

Lemma getKey_target_inj s a b :
  getKey (Some s) (Some a) = getKey (Some s) (Some b) -> GetID a = GetID b.
Proof.
  simpl. intros H. apply string_app_cancel_l in H. injection H as H.
  by apply (inj pretty).
Qed.

Lemma getKey_source_ne_pair a b t : getKey (Some a) None <> getKey (Some b) (Some t).
Proof.
  simpl. intros H. apply (f_equal noDash) in H.
  rewrite !noDash_app, !noDash_pretty in H. simpl in H. discriminate.
Qed.

Lemma getKey_some_ne_empty s t : getKey (Some s) t <> "".
Proof. destruct t; simpl; discriminate. Qed.

(** [filter], [put] and [remove] only touch the record at their key. *)
Definition sameExceptAt (k : string) (h h' : hitsStoreBuilder) : Prop :=
  ttl h' = ttl h /\ threshold h' = threshold h /\ forall k', k' <> k -> hits h' !! k' = hits h !! k'.

Lemma sameExceptAt_refl k h : sameExceptAt k h h.
Proof. by split; [|split]. Qed.

Lemma hitsFilter_frame now src tgt h :
  sameExceptAt (getKey src tgt) h (hitsFilter now src tgt h).2.
Proof.
  unfold hitsFilter.
  case_decide; [apply sameExceptAt_refl|].
  destruct (hits h !! _) as [item|]; [|apply sameExceptAt_refl]. unfold sameExceptAt.
  destruct (bool_decide (now - lastTime item > ttl h)%Z);
    destruct (_ && _); simpl; (split; [done|split; [done|]]); try done;
    intros k' Hk; by rewrite lookup_delete_ne by congruence.
Qed.

Lemma hitsPut_frame now src tgt h :
  sameExceptAt (getKey src tgt) h (hitsPut now src tgt h).
Proof.
  unfold hitsPut.
  case_decide; [apply sameExceptAt_refl|]. unfold sameExceptAt. destruct (hits h !! _) as [item|]; simpl;
    (split; [done|split; [done|]]); intros k' Hk; by rewrite lookup_insert_ne by congruence.
Qed.

Lemma hitsRemove_frame src tgt h :
  sameExceptAt (getKey src tgt) h (hitsRemove src tgt h).
Proof.
  unfold hitsRemove.
  destruct (hits h !! _) as [item|]; [|apply sameExceptAt_refl].
  destruct (bool_decide _); [|apply sameExceptAt_refl]. unfold sameExceptAt. simpl. (split; [done|split; [done|]]). intros k' Hk. by rewrite lookup_delete_ne by congruence.
Qed.

(** The verdict of [filter] only reads the record at its key. *)
Lemma hitsFilter_local now src tgt h h' :
  hits h' !! getKey src tgt = hits h !! getKey src tgt ->
  ttl h' = ttl h -> threshold h' = threshold h ->
  (hitsFilter now src tgt h').1 = (hitsFilter now src tgt h).1.
Proof.
  intros Hk Ht Hth. unfold hitsFilter. case_decide; [done|].
  rewrite Hk, Ht, Hth. destruct (hits h !! _); [|done].
  by destruct (_ && _).
Qed.

Lemma hitsFilter_true_inv now src tgt h :
  (hitsFilter now src tgt h).1 = true ->
  exists item, hits h !! getKey src tgt = Some item /\
    (now - lastTime item <= ttl h)%Z /\ (threshold h <= count item)%Z.
Proof.
  unfold hitsFilter. case_decide; [done|].
  destruct (hits h !! _) as [item|]; [|done].
  destruct (bool_decide (now - lastTime item <= ttl h)%Z) eqn:H1;
    destruct (bool_decide (count item >= threshold h)%Z) eqn:H2; simpl; try done.
  apply bool_decide_eq_true in H1, H2. intros _. exists item. split; [done|lia].
Qed.

Lemma filter_ext_Forall {A} (P Q : A -> Prop) `{!forall x, Decision (P x)}
    `{!forall x, Decision (Q x)} (l : list A) :
  Forall (fun x => P x <-> Q x) l -> filter P l = filter Q l.
Proof.
  induction 1 as [|x l Hx _ IH]; [done|]. rewrite !filter_cons.
  repeat case_decide; try tauto; by rewrite IH.
Qed.

(** The loop shared by [buildSourceFilter] and [buildTargetFilter]: with one
    key per store and keys pairwise distinct, each verdict is the one the
    initial builder gives. *)
Lemma buildFilter_fold (keyOf : StoreInfo -> string)
    (F : StoreInfo -> hitsStoreBuilder -> bool * hitsStoreBuilder) l bl h :
  (forall s h, sameExceptAt (keyOf s) h (F s h).2) ->
  (forall s h h', hits h' !! keyOf s = hits h !! keyOf s -> ttl h' = ttl h ->
     threshold h' = threshold h -> (F s h').1 = (F s h).1) ->
  NoDup (keyOf <$> l) ->
  (foldl (fun '(bl, h) s => let '(b, h') := F s h in
            (if b then bl ++ [GetID s] else bl, h')) (bl, h) l).1 =
  bl ++ (GetID <$> filter (fun s => (F s h).1 = true) l).
Proof.
  intros Hframe Hloc. revert bl h.
  induction l as [|a l IH]; intros bl h Hnd; simpl; [by rewrite app_nil_r|].
  inversion Hnd as [|? ? Hnotin Hnd']; subst.
  destruct (F a h) as [b h1] eqn:Ha.
  rewrite IH by done. rewrite filter_cons.
  assert (Hsame : filter (fun s => (F s h1).1 = true) l = filter (fun s => (F s h).1 = true) l).
  { apply filter_ext_Forall, Forall_forall. intros s Hs.
    destruct (Hframe a h) as (Ht & Hth & Hk). rewrite Ha in Ht, Hth, Hk. simpl in *.
    rewrite (Hloc s h h1); [done| |done|done]. apply Hk. intros Heq. apply Hnotin.
    rewrite <- Heq. by apply list_elem_of_fmap_2. }
  rewrite Hsame. rewrite Ha. simpl.
  destruct b; case_decide; simpl in *; try discriminate; try done.
  by rewrite <- app_assoc.
Qed.

Lemma NoDup_fmap_via {A B C} (f : A -> B) (g : A -> C) (l : list A) :
  NoDup (g <$> l) -> (forall x y, f x = f y -> g x = g y) -> NoDup (f <$> l).
Proof.
  intros Hnd Hinj. induction l as [|a l IH]; simpl; [constructor|].
  inversion Hnd as [|? ? Hnotin Hnd']; subst. constructor; [|by apply IH].
  intros Hin. apply list_elem_of_fmap in Hin as (y & Heq & Hy).
  apply Hinj in Heq. apply Hnotin. rewrite Heq. by apply list_elem_of_fmap_2.
Qed.

Lemma GetStores_NoDup c : StoresKeyed c -> NoDup (GetID <$> GetStores c).
Proof.
  intros Hk. unfold GetStores.
  assert (Heq : GetID <$> (map_to_list (Stores c)).*2 = (map_to_list (Stores c)).*1).
  { apply map_Forall_to_list in Hk. revert Hk.
    generalize (map_to_list (Stores c)) as l. intros l Hk. induction Hk as [|[i s] l Hs _ IH]; [done|].
    simpl in *. f_equal; auto. }
  rewrite Heq. apply NoDup_fst_map_to_list.
Qed.

(** [buildSourceFilter] blacklists, in store order, the ids of the stores
    that [filter] rejects as a source on the builder it starts from: the
    expired records the loop deletes on the way never change the verdict
    on another store.  The same holds for [buildTargetFilter] and the
    source-target records of a given source. *)
Theorem buildFilters_per_store now c h source :
  StoresKeyed c ->
  (buildSourceFilter now c h).1 =
    GetID <$> filter (fun s => (hitsFilter now (Some s) None h).1 = true) (GetStores c) /\
  (buildTargetFilter now c source h).1 =
    GetID <$> filter (fun t => (hitsFilter now source (Some t) h).1 = true) (GetStores c).
Proof.
  intros Hk. pose proof (GetStores_NoDup c Hk) as Hnd. split.
  - unfold buildSourceFilter.
    apply (buildFilter_fold (fun s => getKey (Some s) None)
             (fun s h => hitsFilter now (Some s) None h)).
    + intros s h'. apply hitsFilter_frame.
    + intros s h1 h2. apply hitsFilter_local.
    + apply (NoDup_fmap_via _ GetID); [done|]. apply getKey_source_inj.
  - destruct source as [src|].
    + unfold buildTargetFilter.
      apply (buildFilter_fold (fun t => getKey (Some src) (Some t))
               (fun t h => hitsFilter now (Some src) (Some t) h)).
      * intros t h'. apply hitsFilter_frame.
      * intros t h1 h2. apply hitsFilter_local.
      * apply (NoDup_fmap_via _ GetID); [done|]. apply getKey_target_inj.
    + unfold buildTargetFilter. generalize (GetStores c) as l.
      assert (Hgen : forall l bl, (foldl (fun '(bl, h0) target =>
                let '(b, h') := hitsFilter now None (Some target) h0 in
                (if b then bl ++ [GetID target] else bl, h')) (bl, h) l).1 = bl).
      { induction l as [|t l IH]; intros bl; simpl; [done|]. apply IH. }
      intros l. rewrite Hgen. induction l as [|t l IH]; simpl; [done|].
      rewrite filter_cons. case_decide; [discriminate|done].
Qed.

(** Recording or clearing a source-target pair ([put] / [remove] with a
    target) never changes whether [filter] rejects a store as a source, and
    recording or clearing a source never changes whether [filter] rejects a
    source-target pair. *)
Theorem hits_pair_and_source_records_independent now now' s t s' h :
  (hitsFilter now' (Some s') None (hitsPut now (Some s) (Some t) h)).1 =
    (hitsFilter now' (Some s') None h).1 /\
  (hitsFilter now' (Some s') None (hitsRemove (Some s) (Some t) h)).1 =
    (hitsFilter now' (Some s') None h).1 /\
  (hitsFilter now' (Some s) (Some t) (hitsPut now (Some s') None h)).1 =
    (hitsFilter now' (Some s) (Some t) h).1 /\
  (hitsFilter now' (Some s) (Some t) (hitsRemove (Some s') None h)).1 =
    (hitsFilter now' (Some s) (Some t) h).1.
Proof.
  pose proof (getKey_source_ne_pair s' s t) as Hne.
  destruct (hitsPut_frame now (Some s) (Some t) h) as (Ht1 & Hth1 & Hk1).
  destruct (hitsRemove_frame (Some s) (Some t) h) as (Ht2 & Hth2 & Hk2).
  destruct (hitsPut_frame now (Some s') None h) as (Ht3 & Hth3 & Hk3).
  destruct (hitsRemove_frame (Some s') None h) as (Ht4 & Hth4 & Hk4).
  repeat split; apply hitsFilter_local; auto.
Qed.

(** Starting from [newHitsStoreBuilder], each [put] of a source raises its
    count by at most one and the count starts at 0: after the puts at
    [times], the source filter can only reject the store if there were more
    than [threshold] of them, i.e. at least 301 failed selections with the
    scheduler's constants. *)
Theorem putAll_rejection_needs_threshold_puts now s times t th :
  (hitsFilter now (Some s) None (putAll s times (newHitsStoreBuilder t th))).1 = true ->
  (th + 1 <= Z.of_nat (length times))%Z.
Proof.
  set (key := getKey (Some s) None).
  set (Inv := fun (h : hitsStoreBuilder) (n : nat) =>
    ttl h = t /\ threshold h = th /\
    match hits h !! key with
    | None => True
    | Some it => (0 <= count it)%Z /\ (count it + 1 <= Z.of_nat n)%Z
    end).
  assert (Hstep : forall h n now', Inv h n -> Inv (hitsPut now' (Some s) None h) (S n)).
  { intros h n now' (Ht & Hth & Hi). unfold hitsPut. fold key.
    rewrite bool_decide_false by apply getKey_some_ne_empty.
    unfold Inv. destruct (hits h !! key) as [it|] eqn:Hk; simpl;
      rewrite lookup_insert_eq; (split; [done|split; [done|]]); simpl; [|lia].
    destruct Hi. case_bool_decide; lia. }
  assert (Hall : forall ts h n, Inv h n -> Inv (putAll s ts h) (n + length ts)).
  { induction ts as [|x ts IH]; intros h n Hinv; simpl; [by rewrite Nat.add_0_r|].
    rewrite Nat.add_succ_r. apply (IH _ (S n)). by apply Hstep. }
  intros Hrej.
  destruct (Hall times (newHitsStoreBuilder t th) 0) as (Ht & Hth & Hi); [by unfold Inv|].
  apply hitsFilter_true_inv in Hrej as (it & Hit & _ & Hc).
  fold key in Hit. rewrite Hit in Hi. simpl in Hi. lia.
Qed.

(* ------------------------------------------------------------------ *)
(** ** The distinct-score guard *)

Lemma float_ltb_irrefl (x : float) : (x <? x)%float = false.
Proof.
  rewrite FloatAxioms.ltb_spec. unfold SpecFloat.SFltb, SpecFloat.SFcompare.
  destruct (FloatOps.Prim2SF x) as [[]|[]| |[] m e]; simpl; try done;
  rewrite Z.compare_refl; simpl; try rewrite Pos.compare_cont_refl; done.
Qed.

Lemma Go_foldl_panic {A B} (f : Go A -> B -> Go A) (l : list B) m :
  (forall b, f (Panic m) b = Panic m) -> foldl f (Panic m) l = Panic m.
Proof. intros Hf. induction l as [|b l IH]; simpl; [done|]. by rewrite Hf. Qed.

Lemma Go_foldl_done {A B} (F : Go A -> B -> Go A) (g : A -> B -> A) (l : list B) acc :
  (forall a b, F (Done a) b = Done (g a b)) -> foldl F (Done acc) l = Done (foldl g acc l).
Proof. intros Hf. revert acc. induction l as [|b l IH]; intros acc; simpl; [done|]. by rewrite Hf. Qed.

(** [NewDistinctScoreFilter] panics on an empty store list
    ([make] with capacity -1), and on a nil source otherwise.  With a source
    and a nonempty list, its stores are those whose id differs from the
    source's, in order; it never rejects a source, and its target check
    never rejects the source store itself (a float is never below itself). *)
Theorem NewDistinctScoreFilter_spec DistinctScore scope labels stores :
  (forall source, exists m, NewDistinctScoreFilter DistinctScore scope labels [] source = Panic m) /\
  (stores <> [] -> exists m, NewDistinctScoreFilter DistinctScore scope labels stores None = Panic m) /\
  (forall src, stores <> [] ->
     exists f, NewDistinctScoreFilter DistinctScore scope labels stores (Some src) = Done f /\
       ds_stores f = filter (fun s => GetID s <> GetID src) stores /\
       forall o st, distinctScoreFilter_Source f o st = false /\
                    distinctScoreFilter_Target DistinctScore f o src = false).
Proof.
  split; [intros source; by eexists|].
  assert (Hlen : stores <> [] -> (length stores =? 0)%nat = false).
  { destruct stores; [done|]. by intros _. }
  split.
  - intros Hne. unfold NewDistinctScoreFilter. rewrite (Hlen Hne).
    destruct (foldl _ _ _); simpl; eauto.
  - intros src Hne. unfold NewDistinctScoreFilter. rewrite (Hlen Hne).
    rewrite (Go_foldl_done _ (fun acc s => if bool_decide (GetID s = GetID src)
                                            then acc else acc ++ [s]))
      by (intros a b; simpl; repeat case_bool_decide; done).
    assert (Hfold : forall acc, foldl (fun acc s => if bool_decide (GetID s = GetID src)
                                                    then acc else acc ++ [s]) acc stores =
                                acc ++ filter (fun s => GetID s <> GetID src) stores).
    { clear Hne Hlen. induction stores as [|s l IH]; intros acc; simpl; [by rewrite app_nil_r|].
      rewrite filter_cons. case_bool_decide; case_decide; try done.
      rewrite IH. by rewrite <- app_assoc. }
    rewrite Hfold. simpl. eexists; split; [done|]. split; [done|].
    intros o st. split; [done|]. apply float_ltb_irrefl.
Qed.

(* ------------------------------------------------------------------ *)
(** ** The balance-region scheduler never returns an operator *)

Lemma mapGo_ptrGetID_nil l : None ∈ l -> exists m, mapGo ptrGetID l = Panic m.
Proof.
  induction l as [|x l IH]; intros Hin; [by apply elem_of_nil in Hin|].
  apply elem_of_cons in Hin as [<-|Hin]; simpl; [by eexists|].
  destruct x; simpl; [|by eexists].
  destruct (IH Hin) as [m ->]. by eexists.
Qed.

Lemma partitionStores_padded stores :
  stores <> [] -> None ∈ (partitionStores stores).1 /\ None ∈ (partitionStores stores).2.
Proof.
  intros Hne. rewrite partitionStores_shape. simpl.
  destruct stores as [|s l]; [done|]. simpl. split; apply elem_of_cons; by left.
Qed.

Section NoOperator.
Variable SelectSource : list (option StoreInfo) -> list N -> Go (option StoreInfo).
Variable RandRegion : RegionPick -> N -> nat -> option RegionInfo.
Variable IsRegionHot : RegionInfo -> bool.
Variable MaxReplicas : nat.
Variable SelectBestReplacementStore : RegionInfo -> N -> list N -> list N -> N.
Variable shouldBalance : StoreInfo -> StoreInfo -> RegionInfo -> bool.
Variable AllocPeer : N -> option Peer.
Variable CreateMovePeerOperator : RegionInfo -> N -> N -> N -> option Operator.

Lemma transferPeer_nil_excluded st now cluster region source excl :
  None ∈ excl ->
  exists m, transferPeer SelectBestReplacementStore shouldBalance AllocPeer CreateMovePeerOperator
              st now cluster region source excl = Panic m.
Proof.
  intros Hin. unfold transferPeer. destruct (buildTargetFilter _ _ _ _) as [bl h1].
  destruct (mapGo_ptrGetID_nil excl Hin) as [m Hm]. rewrite Hm. by eexists.
Qed.

Lemma retryLoop_nil_excluded i st now cluster source excl ops st' :
  None ∈ excl ->
  retryLoop RandRegion IsRegionHot MaxReplicas SelectBestReplacementStore shouldBalance
    AllocPeer CreateMovePeerOperator i st now cluster source excl <> Done (Some ops, st').
Proof.
  intros Hin. revert st. induction i as [|i IH]; intros st H; simpl in H; [discriminate|].
  destruct (pickRegion RandRegion (GetID source) st) as [[r|] st1]; [|eapply IH; eauto].
  destruct (negb _); [eapply IH; eauto|].
  destruct (IsRegionHot r); [eapply IH; eauto|].
  destruct (transferPeer_nil_excluded st1 now cluster r source excl Hin) as [m Hm].
  rewrite Hm in H. discriminate.
Qed.

Lemma scheduleImpl_nil_excluded st now cluster inc excl ops st' :
  None ∈ excl ->
  scheduleImpl SelectSource RandRegion IsRegionHot MaxReplicas SelectBestReplacementStore
    shouldBalance AllocPeer CreateMovePeerOperator st now cluster inc excl <> Done (Some ops, st').
Proof.
  intros Hin. unfold scheduleImpl. destruct (buildSourceFilter _ _ _) as [bl h1].
  destruct (SelectSource inc bl) as [[src|]|m]; intros H; cbv [mbind Go_bind] in H;
    try discriminate.
  eapply retryLoop_nil_excluded; eauto.
Qed.

(** On a cluster with at least one store, [Schedule] never returns an
    operator: the two lists it hands to [scheduleImpl] start with the nil
    entries [make] created, and the first [transferPeer] call of either
    tier calls [GetID] on one of them and panics.  [Schedule] either
    returns no operator or panics. *)
Theorem Schedule_never_returns_operator st now cluster :
  GetStores cluster <> [] ->
  forall ops st',
  Schedule SelectSource RandRegion IsRegionHot MaxReplicas SelectBestReplacementStore
    shouldBalance AllocPeer CreateMovePeerOperator st now cluster <> Done (Some ops, st').
Proof.
  intros Hne ops st'. unfold Schedule.
  destruct (partitionStores_padded _ Hne) as [Hsto Hperf].
  destruct (partitionStores (GetStores cluster)) as [sto perf]. simpl in Hsto, Hperf.
  destruct (scheduleImpl SelectSource RandRegion IsRegionHot MaxReplicas SelectBestReplacementStore
    shouldBalance AllocPeer CreateMovePeerOperator st now cluster sto perf)
    as [[[l|] st1]|m] eqn:H1; simpl; try discriminate.
  - intros [= -> ->]. by apply (scheduleImpl_nil_excluded _ _ _ _ _ _ _ Hperf) in H1.
  - apply scheduleImpl_nil_excluded. exact Hsto.
Qed.
End NoOperator.

(* ------------------------------------------------------------------ *)
(** ** Witnesses of the properties above *)

(** A cooldown builder with a live record for store 1 at the threshold and
    an expired one for store 2. *)
Definition twoRecords : hitsStoreBuilder :=
  with_hits (<["s1" := {| lastTime := 0; count := 300 |}]>
             (<["s2" := {| lastTime := - hitsStoreTTL - 1; count := 400 |}]> ∅))
            (newHitsStoreBuilder hitsStoreTTL hitsStoreCountThreshold).

Lemma buildFilters_per_store_witness :
  StoresKeyed (regionCluster false []) /\
  (buildSourceFilter Minute (regionCluster false []) twoRecords).1 = [1%N] /\
  ((buildSourceFilter Minute (regionCluster false []) twoRecords).1 =
     GetID <$> filter (fun s => (hitsFilter Minute (Some s) None twoRecords).1 = true)
                      (GetStores (regionCluster false [])) /\
   (buildTargetFilter Minute (regionCluster false []) (Some coolStore) twoRecords).1 =
     GetID <$> filter (fun t => (hitsFilter Minute (Some coolStore) (Some t) twoRecords).1 = true)
                      (GetStores (regionCluster false []))).
Proof.
  assert (Hk : StoresKeyed (regionCluster false [])) by apply demoCluster_keyed.
  split; [exact Hk|]. split; [vm_compute; reflexivity|].
  exact (buildFilters_per_store Minute (regionCluster false []) twoRecords (Some coolStore) Hk).
Defined.

Lemma putAll_rejection_needs_threshold_puts_witness :
  (hitsFilter spreadNow (Some coolStore) None
     (putAll coolStore spreadAttempts (newHitsStoreBuilder hitsStoreTTL hitsStoreCountThreshold))).1
  = true /\
  (hitsStoreCountThreshold + 1 <= Z.of_nat (length spreadAttempts))%Z.
Proof.
  assert (H : (hitsFilter spreadNow (Some coolStore) None
     (putAll coolStore spreadAttempts (newHitsStoreBuilder hitsStoreTTL hitsStoreCountThreshold))).1
     = true) by (vm_compute; reflexivity).
  split; [exact H|].
  exact (putAll_rejection_needs_threshold_puts spreadNow coolStore spreadAttempts
           hitsStoreTTL hitsStoreCountThreshold H).
Defined.

Definition zeroScore (_ : list string) (_ : list StoreInfo) (_ : StoreInfo) : float := 0%float.

Lemma NewDistinctScoreFilter_spec_witness :
  [coolStore; otherStore] <> [] /\
  exists f, NewDistinctScoreFilter zeroScore balanceRegionName [] [coolStore; otherStore]
              (Some coolStore) = Done f /\
    ds_stores f = filter (fun s => GetID s <> GetID coolStore) [coolStore; otherStore] /\
    forall o st, distinctScoreFilter_Source f o st = false /\
                 distinctScoreFilter_Target zeroScore f o coolStore = false.
Proof.
  assert (Hne : [coolStore; otherStore] <> []) by discriminate.
  split; [exact Hne|].
  exact (proj2 (proj2 (NewDistinctScoreFilter_spec zeroScore balanceRegionName []
           [coolStore; otherStore])) coolStore Hne).
Defined.

Lemma Schedule_never_returns_operator_witness :
  GetStores (regionCluster false [R1 5 2]) <> [] /\
  forall ops st', scheduleWith (fun _ => false) <> Done (Some ops, st').
Proof.
  assert (Hne : GetStores (regionCluster false [R1 5 2]) <> []).
  { intros H. vm_compute in H. discriminate. }
  split; [exact Hne|].
  exact (Schedule_never_returns_operator firstStore alwaysR1 (fun _ => false) 1 store2
           balanceAlways allocOn moveOp sched0 0 (regionCluster false [R1 5 2]) Hne).
Defined.

(* ------------------------------------------------------------------ *)
(** ** Configuration adjustment ([server/config/config.go]) *)

(** [adjustString], [adjustUint64], [adjustFloat64], [adjustDuration],
    [adjustSchedulers]: replace a zero value by the default.  A
    [time.Duration] is an [int64] of nanoseconds; the float comparison
    [*v == 0] is IEEE equality. *)
Definition adjustString (v defValue : string) : string :=
  if (String.length v =? 0)%nat then defValue else v.
Definition adjustUint64 (v defValue : N) : N :=
  if (v =? 0)%N then defValue else v.
Definition adjustFloat64 (v defValue : float) : float :=
  if (v =? 0)%float then defValue else v.
Definition adjustDuration (v defValue : Z) : Z :=
  if (v =? 0)%Z then defValue else v.
Definition adjustSchedulers (v defValue : list SchedulerConfig) : list SchedulerConfig :=
  if (length v =? 0)%nat then defValue else v.

Section ConfigMeta.
(** [toml.MetaData], outside these sources: which key paths the file
    defines, and the keys it has that no field decoded. *)
Variable MetaData : Type.
Variable MetaIsDefined : MetaData -> list string -> bool.
Variable MetaUndecoded : MetaData -> list string.

Record configMetaData := { meta : option MetaData; path : list string }.

Definition newConfigMetadata (md : option MetaData) : configMetaData :=
  {| meta := md; path := [] |}.

Definition IsDefined (m : configMetaData) (key : string) : bool :=
  match meta m with
  | None => false
  | Some md => MetaIsDefined md (path m ++ [key])
  end.

Definition Child (m : configMetaData) (p : list string) : configMetaData :=
  {| meta := meta m; path := path m ++ p |}.

(** [CheckUndecoded]: the error message, None for nil;
    [errInfo[:len(errInfo)-2]] drops the last ", ". *)
Definition CheckUndecoded (m : configMetaData) : option string :=
  match meta m with
  | None => None
  | Some md =>
      match MetaUndecoded md with
      | [] => None
      | undecoded =>
          let errInfo := foldl (fun acc key => acc +:+ key +:+ ", ")
                               "Config contains undefined item: " undecoded in
          Some (String.substring 0 (String.length errInfo - 2) errInfo)
      end
  end.
End ConfigMeta.

Definition Millisecond : Z := 1000000.
Definition Hour : Z := 60 * Minute.

(** The fields of [ScheduleConfig] that [adjust] touches besides the ones
    [Validate] reads, which stay in the [ScheduleConfig] record. *)
Record ScheduleOptions := {
  MaxSnapshotCount : N;
  MaxPendingPeerCount : N;
  MaxMergeRegionSize : N;
  MaxMergeRegionKeys : N;
  SplitMergeInterval : Z;
  PatrolRegionInterval : Z;
  MaxStoreDownTime : Z;
  MaxColdDataTime : Z;
  LeaderScheduleLimit : N;
  LeaderScheduleStrategy : string;
  RegionScheduleLimit : N;
  ReplicaScheduleLimit : N;
  MergeScheduleLimit : N;
  HotRegionScheduleLimit : N;
  HotRegionCacheHitsThreshold : N;
  StoreBalanceRate : float;
  SchedulerMaxWaitingOperator : N;
  validated : ScheduleConfig
}.

Definition defaultMaxSnapshotCount : N := 3.
Definition defaultMaxPendingPeerCount : N := 16.
Definition defaultMaxMergeRegionSize : N := 20.
Definition defaultMaxMergeRegionKeys : N := 200000.
Definition defaultSplitMergeInterval : Z := 1 * Hour.
Definition defaultPatrolRegionInterval : Z := 100 * Millisecond.
Definition defaultMaxStoreDownTime : Z := 30 * Minute.
Definition defaultMaxColdDataTime : Z := 30 * 24 * Hour.
Definition defaultLeaderScheduleLimit : N := 4.
Definition defaultRegionScheduleLimit : N := 2048.
Definition defaultReplicaScheduleLimit : N := 64.
Definition defaultMergeScheduleLimit : N := 8.
Definition defaultHotRegionScheduleLimit : N := 4.
Definition defaultStoreBalanceRate : float := 15.
Definition defaultTolerantSizeRatio : float := 0.
#[warnings="-inexact-float"]
Definition defaultLowSpaceRatio : float := 0.8.
#[warnings="-inexact-float"]
Definition defaultHighSpaceRatio : float := 0.6.
Definition defaultHotRegionCacheHitsThreshold : N := 3.
Definition defaultSchedulerMaxWaitingOperator : N := 3.
Definition defaultLeaderScheduleStrategy : string := "count".

Definition schedulerOfType (t : string) : SchedulerConfig :=
  {| sc_type := t; sc_args := []; sc_disable := false; sc_args_payload := "" |}.

Definition defaultSchedulers : list SchedulerConfig :=
  schedulerOfType <$> ["balance-region"; "balance-leader"; "hot-region"; "label"; "separate-cold-hot"].

Definition IsDefaultScheduler (typ : string) : bool :=
  existsb (fun c => bool_decide (typ = sc_type c)) defaultSchedulers.

Section ScheduleAdjust.
Variable MetaData : Type.
Variable MetaIsDefined : MetaData -> list string -> bool.
Variable IsSchedulerRegistered : string -> bool.

Definition guardedUint64 (m : configMetaData MetaData) (key : string) (v defValue : N) : N :=
  if negb (IsDefined MetaData MetaIsDefined m key) then adjustUint64 v defValue else v.

(** [ScheduleConfig.adjust]: the adjusted configuration and [c.Validate()]. *)
Definition ScheduleConfig_adjust (m : configMetaData MetaData) (c : ScheduleOptions)
  : ScheduleOptions * option string :=
  let v := validated c in
  let v' := {| TolerantSizeRatio :=
                 if negb (IsDefined MetaData MetaIsDefined m "tolerant-size-ratio")
                 then adjustFloat64 (TolerantSizeRatio v) defaultTolerantSizeRatio
                 else TolerantSizeRatio v;
               LowSpaceRatio := adjustFloat64 (LowSpaceRatio v) defaultLowSpaceRatio;
               HighSpaceRatio := adjustFloat64 (HighSpaceRatio v) defaultHighSpaceRatio;
               Schedulers := adjustSchedulers (Schedulers v) defaultSchedulers |} in
  let c' := {|
    MaxSnapshotCount := guardedUint64 m "max-snapshot-count" (MaxSnapshotCount c) defaultMaxSnapshotCount;
    MaxPendingPeerCount := guardedUint64 m "max-pending-peer-count" (MaxPendingPeerCount c) defaultMaxPendingPeerCount;
    MaxMergeRegionSize := guardedUint64 m "max-merge-region-size" (MaxMergeRegionSize c) defaultMaxMergeRegionSize;
    MaxMergeRegionKeys := guardedUint64 m "max-merge-region-keys" (MaxMergeRegionKeys c) defaultMaxMergeRegionKeys;
    SplitMergeInterval := adjustDuration (SplitMergeInterval c) defaultSplitMergeInterval;
    PatrolRegionInterval := adjustDuration (PatrolRegionInterval c) defaultPatrolRegionInterval;
    MaxStoreDownTime := adjustDuration (MaxStoreDownTime c) defaultMaxStoreDownTime;
    MaxColdDataTime := adjustDuration (MaxColdDataTime c) defaultMaxColdDataTime;
    LeaderScheduleLimit := guardedUint64 m "leader-schedule-limit" (LeaderScheduleLimit c) defaultLeaderScheduleLimit;
    LeaderScheduleStrategy :=
      if negb (IsDefined MetaData MetaIsDefined m "leader-schedule-strategy")
      then adjustString (LeaderScheduleStrategy c) defaultLeaderScheduleStrategy
      else LeaderScheduleStrategy c;
    RegionScheduleLimit := guardedUint64 m "region-schedule-limit" (RegionScheduleLimit c) defaultRegionScheduleLimit;
    ReplicaScheduleLimit := guardedUint64 m "replica-schedule-limit" (ReplicaScheduleLimit c) defaultReplicaScheduleLimit;
    MergeScheduleLimit := guardedUint64 m "merge-schedule-limit" (MergeScheduleLimit c) defaultMergeScheduleLimit;
    HotRegionScheduleLimit := guardedUint64 m "hot-region-schedule-limit" (HotRegionScheduleLimit c) defaultHotRegionScheduleLimit;
    HotRegionCacheHitsThreshold := guardedUint64 m "hot-region-cache-hits-threshold" (HotRegionCacheHitsThreshold c) defaultHotRegionCacheHitsThreshold;
    StoreBalanceRate := adjustFloat64 (StoreBalanceRate c) defaultStoreBalanceRate;
    SchedulerMaxWaitingOperator := guardedUint64 m "scheduler-max-waiting-operator" (SchedulerMaxWaitingOperator c) defaultSchedulerMaxWaitingOperator;
    validated := v' |} in
  (c', Validate IsSchedulerRegistered v').
End ScheduleAdjust.

Lemma adjustUint64_idem v d : adjustUint64 (adjustUint64 v d) d = adjustUint64 v d.
Proof. unfold adjustUint64. destruct (v =? 0)%N eqn:Hv; [by destruct (d =? 0)%N|by rewrite Hv]. Qed.

Lemma adjustFloat64_idem v d : adjustFloat64 (adjustFloat64 v d) d = adjustFloat64 v d.
Proof. unfold adjustFloat64. destruct (v =? 0)%float eqn:Hv; [by destruct (d =? 0)%float|by rewrite Hv]. Qed.

Lemma adjustDuration_idem v d : adjustDuration (adjustDuration v d) d = adjustDuration v d.
Proof. unfold adjustDuration. destruct (v =? 0)%Z eqn:Hv; [by destruct (d =? 0)%Z|by rewrite Hv]. Qed.

Lemma adjustString_idem v d : adjustString (adjustString v d) d = adjustString v d.
Proof.
  unfold adjustString. destruct (String.length v =? 0)%nat eqn:Hv;
    [by destruct (String.length d =? 0)%nat|by rewrite Hv].
Qed.

Lemma adjustSchedulers_idem v d : adjustSchedulers (adjustSchedulers v d) d = adjustSchedulers v d.
Proof.
  unfold adjustSchedulers. destruct (length v =? 0)%nat eqn:Hv;
    [by destruct (length d =? 0)%nat|by rewrite Hv].
Qed.

Lemma guardedUint64_idem {MD} (isdef : MD -> list string -> bool) m k v d :
  guardedUint64 MD isdef m k (guardedUint64 MD isdef m k v d) d = guardedUint64 MD isdef m k v d.
Proof. unfold guardedUint64. destruct (negb _); [apply adjustUint64_idem|done]. Qed.

Lemma adjustFloat64_nonzero v d : (d =? 0)%float = false -> (adjustFloat64 v d =? 0)%float = false.
Proof. intros Hd. unfold adjustFloat64. by destruct (v =? 0)%float eqn:Hv. Qed.

Lemma adjustDuration_nonzero v d : d <> 0%Z -> adjustDuration v d <> 0%Z.
Proof. unfold adjustDuration. destruct (Z.eqb_spec v 0); lia. Qed.

(** [ScheduleConfig.adjust] is idempotent: adjusting an adjusted
    configuration with the same metadata changes nothing and returns the
    same validation result.  Whatever the metadata, afterwards the fields
    it adjusts without looking at the metadata are never zero:
    [store-balance-rate], [low-space-ratio], [high-space-ratio], the four
    durations and the scheduler list; so a zero written in the file for one
    of them is replaced by the default, unlike the metadata-guarded limits. *)
Theorem ScheduleConfig_adjust_idempotent MD isdef reg m c :
  let r := ScheduleConfig_adjust MD isdef reg m c in
  ScheduleConfig_adjust MD isdef reg m r.1 = r /\
  (StoreBalanceRate r.1 =? 0)%float = false /\
  (LowSpaceRatio (validated r.1) =? 0)%float = false /\
  (HighSpaceRatio (validated r.1) =? 0)%float = false /\
  SplitMergeInterval r.1 <> 0%Z /\ PatrolRegionInterval r.1 <> 0%Z /\
  MaxStoreDownTime r.1 <> 0%Z /\ MaxColdDataTime r.1 <> 0%Z /\
  Schedulers (validated r.1) <> [].
Proof.
  intros r. split; [|split; [|split; [|split; [|split; [|split; [|split; [|split]]]]]]].
  - unfold r, ScheduleConfig_adjust. simpl.
    rewrite !guardedUint64_idem, !adjustDuration_idem, !adjustFloat64_idem,
      adjustSchedulers_idem.
    destruct (negb (IsDefined MD isdef m "tolerant-size-ratio")); rewrite ?adjustFloat64_idem;
    destruct (negb (IsDefined MD isdef m "leader-schedule-strategy")); rewrite ?adjustString_idem;
    reflexivity.
  - apply adjustFloat64_nonzero. by vm_compute.
  - apply adjustFloat64_nonzero. by vm_compute.
  - apply adjustFloat64_nonzero. by vm_compute.
  - apply adjustDuration_nonzero. by vm_compute.
  - apply adjustDuration_nonzero. by vm_compute.
  - apply adjustDuration_nonzero. by vm_compute.
  - apply adjustDuration_nonzero. by vm_compute.
  - simpl. unfold adjustSchedulers. destruct (length _ =? 0)%nat eqn:Hl; [done|].
    intros Hn. rewrite Hn in Hl. discriminate.
Qed.

Lemma string_app_cons x (a b : string) : String x a +:+ b = String x (a +:+ b).
Proof. reflexivity. Qed.

Lemma string_app_assoc_l (a b c : string) : (a +:+ b) +:+ c = a +:+ (b +:+ c).
Proof. induction a as [|x a IH]; [done|]. by rewrite !string_app_cons, IH. Qed.

Lemma string_length_app (a b : string) : String.length (a +:+ b) = (String.length a + String.length b)%nat.
Proof. induction a as [|x a IH]; [done|]. rewrite string_app_cons. simpl. by rewrite IH. Qed.

Lemma substring_app_prefix (a b : string) : String.substring 0 (String.length a) (a +:+ b) = a.
Proof.
  induction a as [|x a IH]; [by destruct b|]. rewrite string_app_cons. simpl. by rewrite IH.
Qed.

Lemma undecoded_fold (p k : string) (ks : list string) :
  foldl (fun acc key => acc +:+ key +:+ ", ") p (k :: ks) =
  p +:+ String.concat ", " (k :: ks) +:+ ", ".
Proof.
  revert p k. induction ks as [|k' ks IH]; intros p k; [done|].
  change (foldl (fun acc key => acc +:+ key +:+ ", ") (p +:+ k +:+ ", ") (k' :: ks) =
          p +:+ (k +:+ ", " +:+ String.concat ", " (k' :: ks)) +:+ ", ").
  rewrite IH. rewrite !string_app_assoc_l. done.
Qed.

(** [configMetaData.CheckUndecoded] returns no error without metadata or
    when every key was decoded, and otherwise the message
    "Config contains undefined item: " followed by the undecoded keys
    separated by ", ", without a trailing separator.  Nil metadata defines
    no key, and [IsDefined] on a [Child] looks the key up under the
    parent's path extended by the child's. *)
Theorem CheckUndecoded_message MD isdef undecoded m :
  CheckUndecoded MD undecoded m =
  match meta MD m with
  | None => None
  | Some md =>
      match undecoded md with
      | [] => None
      | ks => Some ("Config contains undefined item: " +:+ String.concat ", " ks)
      end
  end /\
  (forall key, IsDefined MD isdef (newConfigMetadata MD None) key = false) /\
  (forall p key, IsDefined MD isdef (Child MD m p) key =
     match meta MD m with
     | None => false
     | Some md => isdef md (path MD m ++ p ++ [key])
     end).
Proof.
  split; [|split; [done|]].
  2:{ intros p key. unfold IsDefined, Child. simpl.
      destruct (meta MD m); [|done]. by rewrite <- app_assoc. }
  unfold CheckUndecoded. destruct (meta MD m) as [md|]; [|done].
  destruct (undecoded md) as [|k ks]; [done|].
  rewrite undecoded_fold. f_equal.
  set (X := "Config contains undefined item: " +:+ String.concat ", " (k :: ks)).
  rewrite <- string_app_assoc_l. fold X.
  rewrite string_length_app.
  assert (E : (String.length X + String.length ", " - 2 = String.length X)%nat) by (simpl; lia).
  rewrite E.
  apply substring_app_prefix.
Qed.

(* ------------------------------------------------------------------ *)
(** ** Cluster maintenance ([server/config/config.go], [RaftCluster]) *)

(** [pdpb.BootstrapRequest]: the first store and the first region, None
    when nil. *)
Record BootstrapRequest := { req_store : option Store; req_region : option Region }.

(** [checkBootstrapRequest] *)
Definition checkBootstrapRequest (clusterID : N) (req : BootstrapRequest) : option Err :=
  match req_store req with
  | None => Some (ErrMsg ("missing store meta for bootstrap " +:+ pretty clusterID))
  | Some storeMeta =>
  if bool_decide (store_id storeMeta = 0%N) then Some (ErrMsg "invalid zero store id") else
  match req_region req with
  | None => Some (ErrMsg ("missing region meta for bootstrap " +:+ pretty clusterID))
  | Some regionMeta =>
  if (0 <? length (start_key regionMeta))%nat || (0 <? length (end_key regionMeta))%nat then
    Some (ErrMsg ("invalid first region key range, must all be empty for bootstrap "
                  +:+ pretty clusterID))
  else if bool_decide (region_id regionMeta = 0%N) then Some (ErrMsg "invalid zero region id")
  else
  match region_peers regionMeta with
  | [peer] =>
      if bool_decide (peer_store_id peer <> store_id storeMeta) then
        Some (ErrMsg ("invalid peer store id " +:+ pretty (peer_store_id peer) +:+ " != "
                      +:+ pretty (store_id storeMeta) +:+ " for bootstrap " +:+ pretty clusterID))
      else if bool_decide (peer_id peer = 0%N) then Some (ErrMsg "invalid zero peer id")
      else None
  | peers =>
      Some (ErrMsg ("invalid first region peer count " +:+ pretty (N.of_nat (length peers))
                    +:+ ", must be 1 for bootstrap " +:+ pretty clusterID))
  end
  end
  end.

(** [storage.DeleteStore]: remove the store meta, keyed by its id. *)
Definition DeleteStore (kv : Storage) (m : Store) : option Err * Storage :=
  if kv_fail kv then (Some ErrStorage, kv)
  else (None, {| kv_stores := delete (store_id m) (kv_stores kv);
                 kv_regions := kv_regions kv; kv_fail := kv_fail kv |}).

(** [c.core.DeleteStore] *)
Definition coreDeleteStore (s : StoreInfo) (c : RaftCluster) : RaftCluster :=
  with_core {| bc_stores := delete (GetID s) (Stores c); bc_regions := Regions c |} c.

(** [storesStats.RemoveRollingStoreStats] *)
Definition RemoveRollingStoreStats (id : N) (st : ClusterStats) : ClusterStats :=
  {| cs_stores_stats := delete id (cs_stores_stats st);
     cs_total_bytes_rate := cs_total_bytes_rate st;
     cs_region_stats := cs_region_stats st;
     cs_label_level_stats := cs_label_level_stats st;
     cs_hot_cache := cs_hot_cache st;
     cs_prepare_checker := cs_prepare_checker st |}.

(** [deleteStoreLocked]: delete the persisted meta (an error there is
    returned and nothing changes), then drop the store from the index and
    its rolling stats. *)
Definition deleteStoreLocked (c : RaftCluster) (s : StoreInfo) : option Err * RaftCluster :=
  let del c := with_stats (RemoveRollingStoreStats (GetID s) (rc_stats c)) (coreDeleteStore s c) in
  match rc_storage c with
  | Some kv =>
      match DeleteStore kv (si_meta s) with
      | (Some e, _) => (Some e, c)
      | (None, kv') => (None, del (with_storage (Some kv') c))
      end
  | None => (None, del c)
  end.

(** The loop of [RemoveTombStoneRecords] over the snapshot [c.GetStores()]:
    the first failed delete is logged and returned.  The call
    [opController.RemoveStoreLimit] acts on the coordinator, which this
    model does not hold. *)
Fixpoint removeTombStones (c : RaftCluster) (stores : list StoreInfo) (logs : list LogEntry) : Ret :=
  match stores with
  | [] => (None, c, logs)
  | store :: rest =>
      if IsTombstone store then
        match deleteStoreLocked c store with
        | (Some e, c') => (Some e, c', logs ++ [(LogError, "delete store failed")])
        | (None, c') => removeTombStones c' rest (logs ++ [(LogInfo, "delete store successed")])
        end
      else removeTombStones c rest logs
  end.

Definition RemoveTombStoneRecords (c : RaftCluster) : Ret :=
  removeTombStones c (GetStores c) [].

(** [core.SetLeaderWeight], [core.SetRegionWeight] *)
Definition SetLeaderWeight (w : float) (s : StoreInfo) : StoreInfo :=
  {| si_meta := si_meta s; si_stats := si_stats s; si_leader_count := si_leader_count s;
     si_region_count := si_region_count s;
     si_pending_peer_count := si_pending_peer_count s;
     si_leader_size := si_leader_size s; si_region_size := si_region_size s;
     si_last_heartbeat_ts := si_last_heartbeat_ts s;
     si_leader_weight := w; si_region_weight := si_region_weight s;
     si_blocked := si_blocked s |}.

Definition SetRegionWeight (w : float) (s : StoreInfo) : StoreInfo :=
  {| si_meta := si_meta s; si_stats := si_stats s; si_leader_count := si_leader_count s;
     si_region_count := si_region_count s;
     si_pending_peer_count := si_pending_peer_count s;
     si_leader_size := si_leader_size s; si_region_size := si_region_size s;
     si_last_heartbeat_ts := si_last_heartbeat_ts s;
     si_leader_weight := si_leader_weight s; si_region_weight := w;
     si_blocked := si_blocked s |}.

Section StoreWeight.
(** [c.s.storage.SaveStoreWeight] writes to the server's storage, outside
    these sources; only its error is observed here. *)
Variable SaveStoreWeight : N -> float -> float -> option Err.

(** [SetStoreWeight] *)
Definition SetStoreWeight (c : RaftCluster) (storeID : N) (leaderWeight regionWeight : float)
  : option Err * RaftCluster :=
  match GetStore c storeID with
  | None => (Some (ErrStoreNotFound storeID), c)
  | Some store =>
      match SaveStoreWeight storeID leaderWeight regionWeight with
      | Some e => (Some e, c)
      | None =>
          let newStore := SetRegionWeight regionWeight (SetLeaderWeight leaderWeight store) in
          putStoreLocked c newStore
      end
  end.
End StoreWeight.

Section StoreLabels.
Variable Version : Type.
Variable ParseVersion : string -> option Version.
Variable IsCompatible : Version -> Version -> bool.
Variable MergeLabels : StoreInfo -> list StoreLabel -> list StoreLabel.

(** [UpdateStoreLabels]: a clone of the cached meta with the new labels,
    handed to [putStore] (which merges them). *)
Definition UpdateStoreLabels (clusterVersion : Version) (c : RaftCluster) (storeID : N)
    (labels : list StoreLabel) : Ret :=
  match GetStore c storeID with
  | None => (Some (ErrMsg ("invalid store ID " +:+ pretty storeID +:+ ", not found")), c, [])
  | Some store =>
      let m := si_meta store in
      let newStore := {| store_id := store_id m; store_address := store_address m;
                         store_peer_address := store_peer_address m;
                         store_state := store_state m; store_version := store_version m;
                         store_labels := labels; store_type := store_type m |} in
      putStore Version ParseVersion IsCompatible MergeLabels clusterVersion c newStore
  end.
End StoreLabels.

Section CheckStores.
(** [StoreInfo.IsLowSpace], the option [GetLowSpaceRatio], the option
    [GetMaxReplicas] and the region index's [GetStoreRegionCount] come from
    outside these sources. *)
Variable IsLowSpace : StoreInfo -> float -> bool.
Variable LowSpaceRatio : float.
Variable MaxReplicas : nat.
Variable GetStoreRegionCount : RaftCluster -> N -> nat.

(** One iteration of the loop of [checkStores]: the cluster, [offlineStores],
    [upStoreCount] and the log so far. *)
Definition checkStoresStep (acc : RaftCluster * list Store * nat * list LogEntry)
    (store : StoreInfo) : RaftCluster * list Store * nat * list LogEntry :=
  let '(c, offlineStores, upStoreCount, logs) := acc in
  if IsTombstone store then (c, offlineStores, upStoreCount, logs)
  else if IsUp store then
    (c, offlineStores,
     if IsLowSpace store LowSpaceRatio then upStoreCount else S upStoreCount, logs)
  else
    let offlineStore := si_meta store in
    if (GetStoreRegionCount c (store_id offlineStore) =? 0)%nat then
      let '(e, c', l) := BuryStore c (store_id offlineStore) false in
      (c', offlineStores, upStoreCount,
       logs ++ l ++ match e with Some _ => [(LogError, "bury store failed")] | None => [] end)
    else (c, offlineStores ++ [offlineStore], upStoreCount, logs).

(** [checkStores] *)
Definition checkStores (c : RaftCluster) : RaftCluster * list LogEntry :=
  let '(c', offlineStores, upStoreCount, logs) :=
    foldl checkStoresStep (c, [], 0%nat, []) (GetStores c) in
  match offlineStores with
  | [] => (c', logs)
  | _ =>
      if (upStoreCount <? MaxReplicas)%nat then
        (c', logs ++ map (fun _ => (LogWarn, "store may not turn into Tombstone, there are no extra up store has enough space to accommodate the extra replica")) offlineStores)
      else (c', logs)
  end.
End CheckStores.

Section VersionChange.
(** [semver.Version], [MustParseVersion] and [Version.LessThan] are
    outside these sources. *)
Variable Version : Type.
Variable ParseVersion : string -> option Version.
Variable LessThan : Version -> Version -> bool.

(** [MustParseVersion] stops the process on a malformed version. *)
Definition MustParseVersion (v : string) : Go Version :=
  match ParseVersion v with
  | Some x => Done x
  | None => Panic "version should be parsed"
  end.

(** One iteration of the loop of [OnStoreVersionChange] computing
    [minVersion] (None while nil). *)
Definition minVersionStep (acc : Go (option Version)) (s : StoreInfo) : Go (option Version) :=
  minVersion ← acc;
  if IsTombstone s then Done minVersion else
  v ← MustParseVersion (store_version (si_meta s));
  match minVersion with
  | None => Done (Some v)
  | Some m => if LessThan v m then Done (Some v) else Done (Some m)
  end.

(** [OnStoreVersionChange]: Some v when the cluster version is below the
    least live store version [v] and is set to it ([CASClusterVersion]),
    None when it is kept.  [*minVersion] with no live store dereferences
    nil. *)
Definition OnStoreVersionChange (clusterVersion : Version) (c : RaftCluster)
  : Go (option Version) :=
  minVersion ← foldl minVersionStep (Done None) (GetStores c);
  match minVersion with
  | None => Panic "invalid memory address or nil pointer dereference"
  | Some m => if LessThan clusterVersion m then Done (Some m) else Done None
  end.
End VersionChange.

(** [checkBootstrapRequest] accepts a request exactly when it carries a
    store with a nonzero id and a region with a nonzero id, empty start and
    end keys and a single peer, with a nonzero id, on that store. *)
Theorem checkBootstrapRequest_ok_iff clusterID req :
  checkBootstrapRequest clusterID req = None <->
  exists st rg p,
    req_store req = Some st /\ store_id st <> 0%N /\
    req_region req = Some rg /\ start_key rg = [] /\ end_key rg = [] /\
    region_id rg <> 0%N /\ region_peers rg = [p] /\
    peer_store_id p = store_id st /\ peer_id p <> 0%N.
Proof.
  unfold checkBootstrapRequest. split.
  - destruct (req_store req) as [st|]; [|discriminate].
    case_bool_decide as Hst; [discriminate|].
    destruct (req_region req) as [rg|]; [|discriminate].
    destruct (start_key rg) as [|b1 k1] eqn:Hs; [|discriminate].
    destruct (end_key rg) as [|b2 k2] eqn:He; [|discriminate].
    simpl. case_bool_decide as Hr; [discriminate|].
    destruct (region_peers rg) as [|p [|p2 ps]] eqn:Hp; try discriminate.
    case_bool_decide as Hps; [discriminate|].
    case_bool_decide as Hpid; [discriminate|].
    intros _. exists st, rg, p.
    repeat split; auto.
  - intros (st & rg & p & -> & Hid & -> & Hs & He & Hr & Hp & Hps & Hpid).
    rewrite Hs, He, Hp; simpl.
    repeat case_bool_decide; tauto.
Qed.

Lemma elem_of_GetStores c s : s ∈ GetStores c <-> exists i, GetStore c i = Some s.
Proof.
  unfold GetStores, GetStore. rewrite list_elem_of_fmap. split.
  - intros [[i s'] [-> Hin]]. exists i. by apply elem_of_map_to_list in Hin.
  - intros [i Hi]. exists (i, s). split; [done|]. by apply elem_of_map_to_list.
Qed.

(** On a keyed index, looking for a store with id [j] among [GetStores]
    is looking up [j]. *)
Lemma existsb_GetStores_id c (p : StoreInfo -> bool) j :
  StoresKeyed c ->
  existsb (fun s => p s && bool_decide (GetID s = j)) (GetStores c)
  = match GetStore c j with Some s => p s | None => false end.
Proof.
  intros Hk. destruct (existsb _ _) eqn:E.
  - apply existsb_exists in E as [x [Hin Hx]].
    apply andb_true_iff in Hx as [Hpx Hid]. apply bool_decide_eq_true in Hid.
    apply list_elem_of_In, elem_of_GetStores in Hin as [i Hi].
    pose proof (StoresKeyed_lookup c i x Hk Hi). subst. by rewrite Hi.
  - destruct (GetStore c j) as [s|] eqn:Hs; [|done].
    destruct (p s) eqn:Hps; [|done].
    pose proof (StoresKeyed_lookup c j s Hk Hs) as Hid.
    assert (Hin : In s (GetStores c)).
    { apply list_elem_of_In, elem_of_GetStores. by exists j. }
    enough (existsb (fun s => p s && bool_decide (GetID s = j)) (GetStores c) = true)
      by congruence.
    apply existsb_exists. exists s. split; [done|].
    rewrite Hps. simpl. by apply bool_decide_eq_true.
Qed.

Lemma putStoreLocked_writable c s e c' :
  putStoreLocked c s = (e, c') -> storageWritable c' = storageWritable c.
Proof.
  unfold putStoreLocked, storageWritable, SaveStore.
  destruct (rc_storage c) as [kv|] eqn:Hkv.
  - destruct (kv_fail kv) eqn:Hf; simpl; intros H; inversion H; subst; simpl;
      rewrite ?Hkv, ?Hf; done.
  - intros H; inversion H; subst. simpl. by rewrite Hkv.
Qed.

Lemma deleteStoreLocked_cases c s e c' :
  deleteStoreLocked c s = (e, c') ->
  (storageWritable c = true /\ e = None /\
     Stores c' = delete (GetID s) (Stores c) /\ Regions c' = Regions c /\
     storageWritable c' = true)
  \/ (storageWritable c = false /\ e = Some ErrStorage /\ c' = c).
Proof.
  unfold deleteStoreLocked, storageWritable, DeleteStore.
  destruct (rc_storage c) as [kv|] eqn:Hkv.
  - destruct (kv_fail kv) eqn:Hf; simpl; intros H; inversion H; subst; [right|left];
      simpl; rewrite ?Hf; auto.
  - intros H; inversion H; subst; left; simpl; rewrite ?Hkv; auto.
Qed.

Lemma removeTombStones_writable l c logs e c' l' :
  storageWritable c = true -> removeTombStones c l logs = (e, c', l') ->
  e = None /\ Regions c' = Regions c /\
  forall j, GetStore c' j =
    if existsb (fun s => IsTombstone s && bool_decide (GetID s = j)) l then None
    else GetStore c j.
Proof.
  revert c logs. induction l as [|s l IH]; intros c logs Hw H; simpl in H.
  - inversion H; subst. auto.
  - simpl. destruct (IsTombstone s) eqn:Ht.
    + destruct (deleteStoreLocked c s) as [e1 c1] eqn:Hd.
      destruct (deleteStoreLocked_cases c s e1 c1 Hd)
        as [(_ & -> & Hst & Hrg & Hw1)|(Hf & _)]; [|congruence].
      destruct (IH c1 _ Hw1 H) as (He & Hr & Hj).
      split; [done|]. split; [congruence|].
      intros j. rewrite Hj. unfold GetStore at 1. rewrite Hst.
      simpl. case_bool_decide as Hid.
      * subst j. rewrite lookup_delete_eq. by destruct (existsb _ l).
      * rewrite lookup_delete_ne by congruence. done.
    + destruct (IH c _ Hw H) as (He & Hr & Hj). auto.
Qed.

Lemma removeTombStones_failing l c logs e c' l' :
  storageWritable c = false -> removeTombStones c l logs = (e, c', l') ->
  c' = c /\ e = if existsb IsTombstone l then Some ErrStorage else None.
Proof.
  revert logs. induction l as [|s l IH]; intros logs Hw H; simpl in H.
  - inversion H; subst. auto.
  - simpl. destruct (IsTombstone s) eqn:Ht.
    + destruct (deleteStoreLocked c s) as [e1 c1] eqn:Hd.
      destruct (deleteStoreLocked_cases c s e1 c1 Hd) as [(Hw' & _)|(_ & -> & ->)];
        [congruence|]. inversion H; subst. auto.
    + exact (IH _ Hw H).
Qed.

(** [RemoveTombStoneRecords] leaves the regions alone.  With a writable
    metadata store it returns nil and removes exactly the Tombstone stores;
    with a failing one it changes nothing and returns the storage error
    exactly when some store is Tombstone. *)
Theorem RemoveTombStoneRecords_spec c :
  StoresKeyed c ->
  match RemoveTombStoneRecords c with
  | (e, c', _) =>
    Regions c' = Regions c /\
    (storageWritable c = true ->
       e = None /\
       forall j, GetStore c' j =
         match GetStore c j with
         | Some s => if IsTombstone s then None else Some s
         | None => None
         end) /\
    (storageWritable c = false ->
       c' = c /\
       ((e = None /\ forall j s, GetStore c j = Some s -> IsTombstone s = false) \/
        (e = Some ErrStorage /\ exists j s, GetStore c j = Some s /\ IsTombstone s = true)))
  end.
Proof.
  intros Hk. unfold RemoveTombStoneRecords.
  destruct (removeTombStones c (GetStores c) []) as [[e c'] l'] eqn:H.
  destruct (storageWritable c) eqn:Hw.
  - destruct (removeTombStones_writable _ _ _ _ _ _ Hw H) as (He & Hr & Hj).
    split; [done|]. split; [|discriminate]. intros _. split; [done|].
    intros j. rewrite Hj, (existsb_GetStores_id c IsTombstone j Hk).
    destruct (GetStore c j) as [s|]; [by destruct (IsTombstone s)|done].
  - destruct (removeTombStones_failing _ _ _ _ _ _ Hw H) as [-> He].
    split; [done|]. split; [discriminate|]. intros _. split; [done|].
    destruct (existsb IsTombstone (GetStores c)) eqn:E; subst e.
    + right. split; [done|].
      apply existsb_exists in E as [s [Hin Ht]].
      apply list_elem_of_In, elem_of_GetStores in Hin as [j Hj]. eauto.
    + left. split; [done|]. intros j s Hs.
      destruct (IsTombstone s) eqn:Ht; [|done].
      enough (existsb IsTombstone (GetStores c) = true) by congruence.
      apply existsb_exists. exists s. split; [|done].
      apply list_elem_of_In, elem_of_GetStores. by exists j.
Qed.

(** An unforced [BuryStore] of a cached Offline store on a writable
    metadata store. *)
Lemma BuryStore_offline_step c s :
  GetStore c (GetID s) = Some s -> IsTombstone s = false -> IsUp s = false ->
  storageWritable c = true ->
  exists c' l, BuryStore c (GetID s) false = (None, c', l) /\
    Stores c' = <[GetID s := SetStoreState Tombstone s]> (Stores c) /\
    Regions c' = Regions c /\ storageWritable c' = true.
Proof.
  intros Hs Ht Hu Hw. unfold BuryStore. rewrite Hs, Ht, Hu. simpl.
  destruct (putStoreLocked c (SetStoreState Tombstone s)) as [e c'] eqn:Hp.
  pose proof (putStoreLocked_writable _ _ _ _ Hp) as Hw'.
  destruct (putStoreLocked_cases _ _ _ _ Hp) as [(_ & -> & Hst & Hr)|(Hf & _)];
    [|congruence].
  exists c', [(LogWarn, "store has been Tombstone")]. split; [done|].
  split; [exact Hst|]. split; [done|]. congruence.
Qed.

Lemma BuryStore_failing c id force :
  storageWritable c = false -> (BuryStore c id force).1.2 = c.
Proof.
  intros Hw. unfold BuryStore.
  destruct (GetStore c id) as [s|]; [|done].
  destruct (IsTombstone s); [done|].
  destruct (IsUp s && negb force); [done|].
  destruct (putStoreLocked c (SetStoreState Tombstone s)) as [e c'] eqn:Hp.
  destruct (putStoreLocked_cases _ _ _ _ Hp) as [(Hw' & _)|(_ & _ & ->)]; [congruence|done].
Qed.

Lemma checkStores_fold_failing IsLowSpace r GetStoreRegionCount l cur off up logs :
  storageWritable cur = false ->
  (foldl (checkStoresStep IsLowSpace r GetStoreRegionCount) (cur, off, up, logs) l).1.1.1 = cur.
Proof.
  revert off up logs. induction l as [|s l IH]; intros off up logs Hw; [done|].
  simpl.
  destruct (IsTombstone s); [by apply IH|].
  destruct (IsUp s); [by apply IH|].
  destruct (_ =? 0)%nat; [|by apply IH].
  destruct (BuryStore cur (store_id (si_meta s)) false) as [[e c'] l'] eqn:Hb.
  pose proof (BuryStore_failing cur (store_id (si_meta s)) false Hw) as Hc.
  rewrite Hb in Hc. simpl in Hc. subst c'. by apply IH.
Qed.

Lemma checkStores_fold_writable IsLowSpace r GetStoreRegionCount c0
    (HR : forall c c', Regions c = Regions c' -> forall id,
            GetStoreRegionCount c id = GetStoreRegionCount c' id)
    l cur off up logs :
  NoDup (GetID <$> l) ->
  (forall s, s ∈ l -> GetStore cur (GetID s) = Some s) ->
  Regions cur = Regions c0 -> storageWritable cur = true ->
  let res := (foldl (checkStoresStep IsLowSpace r GetStoreRegionCount) (cur, off, up, logs) l).1.1.1 in
  Regions res = Regions c0 /\ storageWritable res = true /\
  forall j, GetStore res j =
    if existsb (fun s => bool_decide (GetID s = j)) l
    then (fun s => if negb (IsTombstone s || IsUp s) && (GetStoreRegionCount c0 (GetID s) =? 0)%nat
                   then SetStoreState Tombstone s else s) <$> GetStore cur j
    else GetStore cur j.
Proof.
  revert cur off up logs. induction l as [|s l IH]; intros cur off up logs Hnd Hl Hr Hw.
  { simpl. auto. }
  simpl in Hnd. apply NoDup_cons in Hnd as [Hnin Hnd].
  assert (Hs : GetStore cur (GetID s) = Some s) by (apply Hl; by left).
  assert (Hl' : forall s', s' ∈ l -> GetStore cur (GetID s') = Some s')
    by (intros s' Hs'; apply Hl; by right).
  assert (Hne : forall s', s' ∈ l -> GetID s' <> GetID s).
  { intros s' Hs' Heq. apply Hnin. rewrite <- Heq. by apply list_elem_of_fmap_2. }
  (* the stores whose id is [j] are not in [l] when [j] is the id of [s] *)
  assert (Hex : existsb (fun s' => bool_decide (GetID s' = GetID s)) l = false).
  { apply not_true_is_false. intros E. apply existsb_exists in E as [x [Hin Hx]].
    apply bool_decide_eq_true in Hx. apply list_elem_of_In in Hin. exact (Hne x Hin Hx). }
  simpl.
  set (f := fun s0 : StoreInfo => if negb (IsTombstone s0 || IsUp s0) && (GetStoreRegionCount c0 (GetID s0) =? 0)%nat
                                  then SetStoreState Tombstone s0 else s0).
  assert (Hkeep : negb (IsTombstone s || IsUp s) && (GetStoreRegionCount c0 (GetID s) =? 0)%nat = false ->
                  forall cur' off' up' logs', cur' = cur ->
    let res := (foldl (checkStoresStep IsLowSpace r GetStoreRegionCount) (cur', off', up', logs') l).1.1.1 in
    Regions res = Regions c0 /\ storageWritable res = true /\
    forall j, GetStore res j =
      if bool_decide (GetID s = j) || existsb (fun s => bool_decide (GetID s = j)) l
      then f <$> GetStore cur j else GetStore cur j).
  { intros Hoff cur' off' up' logs' ->.
    destruct (IH cur off' up' logs' Hnd Hl' Hr Hw) as (Hr' & Hw' & Hj).
    split; [done|]. split; [done|]. intros j. rewrite Hj.
    case_bool_decide as Hid; simpl; [|done].
    subst j. rewrite Hex, Hs. simpl. unfold f. by rewrite Hoff. }
  destruct (IsTombstone s) eqn:Ht.
  { apply Hkeep; [|done]. by rewrite ?Ht. }
  destruct (IsUp s) eqn:Hu.
  { apply Hkeep; [|done]. by rewrite ?Ht, ?Hu. }
  rewrite (HR cur c0 Hr).
  destruct (GetStoreRegionCount c0 (store_id (si_meta s)) =? 0)%nat eqn:Hz;
    [|apply Hkeep; [|done]; change (GetID s) with (store_id (si_meta s)); rewrite Hz;
      by rewrite andb_false_r].
  change (store_id (si_meta s)) with (GetID s).
  destruct (BuryStore_offline_step cur s Hs Ht Hu Hw) as (c' & lb & Hb & Hst & Hr' & Hw').
  rewrite Hb.
  assert (Hl'' : forall s', s' ∈ l -> GetStore c' (GetID s') = Some s').
  { intros s' Hs'. unfold GetStore. rewrite Hst.
    rewrite lookup_insert_ne by (apply not_eq_sym, Hne, Hs'). apply Hl', Hs'. }
  destruct (IH c' off up (logs ++ lb ++ []) Hnd Hl'' ltac:(congruence) Hw') as (Hr2 & Hw2 & Hj).
  split; [done|]. split; [done|]. intros j. rewrite Hj.
  unfold GetStore in Hs |- *. rewrite Hst. unfold f.
  case_bool_decide as Hid; simpl.
  - subst j. rewrite Hex, lookup_insert_eq, Hs. simpl.
    change (GetID s) with (store_id (si_meta s)). by rewrite Hz, ?Ht, ?Hu.
  - by rewrite lookup_insert_ne by congruence.
Qed.

(** [checkStores] leaves the regions alone.  With a failing metadata store
    it changes nothing; with a writable one it buries exactly the stores
    that are neither Up nor Tombstone (Offline, or an unnamed state code)
    and hold no region, and leaves every other store as it is. *)
Theorem checkStores_spec IsLowSpace r MaxReplicas GetStoreRegionCount c :
  (forall c c', Regions c = Regions c' -> forall id,
     GetStoreRegionCount c id = GetStoreRegionCount c' id) ->
  StoresKeyed c ->
  Regions (checkStores IsLowSpace r MaxReplicas GetStoreRegionCount c).1 = Regions c /\
  (storageWritable c = false -> (checkStores IsLowSpace r MaxReplicas GetStoreRegionCount c).1 = c) /\
  (storageWritable c = true -> forall j,
     GetStore (checkStores IsLowSpace r MaxReplicas GetStoreRegionCount c).1 j =
     (fun s => if negb (IsTombstone s || IsUp s) && (GetStoreRegionCount c (GetID s) =? 0)%nat
               then SetStoreState Tombstone s else s) <$> GetStore c j).
Proof.
  intros HR Hk.
  assert (Hfst : (checkStores IsLowSpace r MaxReplicas GetStoreRegionCount c).1 =
    (foldl (checkStoresStep IsLowSpace r GetStoreRegionCount) (c, [], 0%nat, []) (GetStores c)).1.1.1).
  { unfold checkStores.
    destruct (foldl _ _ _) as [[[c' off] up] logs].
    destruct off; [done|]. by destruct (up <? MaxReplicas)%nat. }
  rewrite Hfst.
  destruct (storageWritable c) eqn:Hw.
  - assert (Hin : forall s, s ∈ GetStores c -> GetStore c (GetID s) = Some s).
    { intros s Hs. apply elem_of_GetStores in Hs as [i Hi].
      by rewrite (StoresKeyed_lookup c i s Hk Hi). }
    destruct (checkStores_fold_writable IsLowSpace r GetStoreRegionCount c HR (GetStores c)
                c [] 0%nat [] (GetStores_NoDup c Hk) Hin eq_refl Hw) as (Hr & _ & Hj).
    split; [done|]. split; [discriminate|]. intros _ j. rewrite Hj.
    pose proof (existsb_GetStores_id c (fun _ => true) j Hk) as E. simpl in E.
    rewrite E. by destruct (GetStore c j).
  - rewrite (checkStores_fold_failing _ _ _ _ _ _ _ _ Hw). split; [done|]. split; [done|discriminate].
Qed.

(** The own fields of a store rewritten with their own values. *)
Lemma SetStoreVersion_Address_self s :
  SetStoreVersion (store_version (si_meta s))
    (SetStoreAddress (store_address (si_meta s)) (store_peer_address (si_meta s)) s) = s.
Proof. by destruct s as [[] ? ? ? ? ? ? ? ? ? ?]. Qed.

(** [UpdateStoreLabels] of an unknown store returns the not-found error.
    It never changes the regions, and on any error nothing changes.  On
    success the store's labels become [MergeLabels] of the cached store and
    the new labels; the rest of the store and every other store are kept. *)
Theorem UpdateStoreLabels_spec Version ParseVersion IsCompatible MergeLabels (cv : Version) c id labels :
  StoresKeyed c ->
  match UpdateStoreLabels Version ParseVersion IsCompatible MergeLabels cv c id labels with
  | (e, c', _) =>
    Regions c' = Regions c /\
    (GetStore c id = None ->
       e = Some (ErrMsg ("invalid store ID " +:+ pretty id +:+ ", not found"))) /\
    (e <> None -> c' = c) /\
    (e = None -> exists s, GetStore c id = Some s /\
       GetStore c' id = Some (SetStoreLabels (MergeLabels s labels) s) /\
       forall j, j <> id -> GetStore c' j = GetStore c j)
  end.
Proof.
  intros Hk. unfold UpdateStoreLabels.
  destruct (GetStore c id) as [s|] eqn:Hs; [|split; [done|]; split; [done|]; split; done].
  pose proof (StoresKeyed_lookup c id s Hk Hs) as Hid.
  set (newStore := {| store_id := store_id (si_meta s); store_address := store_address (si_meta s);
                      store_peer_address := store_peer_address (si_meta s);
                      store_state := store_state (si_meta s);
                      store_version := store_version (si_meta s);
                      store_labels := labels; store_type := store_type (si_meta s) |}).
  assert (Hm : mergedStore MergeLabels c newStore = SetStoreLabels (MergeLabels s labels) s).
  { unfold mergedStore. simpl. change (store_id (si_meta s)) with (GetID s).
    rewrite Hid, Hs. by rewrite SetStoreVersion_Address_self. }
  destruct (putStore Version ParseVersion IsCompatible MergeLabels cv c newStore)
    as [[e c'] l] eqn:Hput.
  unfold putStore in Hput. rewrite Hm in Hput.
  repeat (case_match; simplify_eq/=; try (split; [done|]; split; [done|]; split; [done|]; done)).
  match goal with H : putStoreLocked _ _ = _ |- _ => rename H into Hp end.
  destruct (putStoreLocked_cases _ _ _ _ Hp) as [(_ & -> & Hst & Hr)|(_ & -> & ->)].
  - split; [done|]. split; [done|]. split; [done|]. intros _. exists s.
    split; [done|]. unfold GetStore. rewrite Hst. split.
    + change (GetID (SetStoreLabels (MergeLabels s labels) s)) with (GetID s).
      by rewrite lookup_insert_eq.
    + intros j Hj. change (GetID (SetStoreLabels (MergeLabels s labels) s)) with (GetID s).
      by rewrite lookup_insert_ne by congruence.
  - split; [done|]. split; [done|]. split; [done|]. done.
Qed.

(** [SetStoreWeight] never changes the regions, and on any error nothing
    changes; an unknown store gives the not-found error.  On success the
    store gets the two weights and keeps everything else, and every other
    store is kept. *)
Theorem SetStoreWeight_spec SaveStoreWeight c id lw rw :
  StoresKeyed c ->
  match SetStoreWeight SaveStoreWeight c id lw rw with
  | (e, c') =>
    Regions c' = Regions c /\
    (GetStore c id = None -> e = Some (ErrStoreNotFound id)) /\
    (e <> None -> c' = c) /\
    (e = None -> exists s, GetStore c id = Some s /\
       GetStore c' id = Some (SetRegionWeight rw (SetLeaderWeight lw s)) /\
       forall j, j <> id -> GetStore c' j = GetStore c j)
  end.
Proof.
  intros Hk. unfold SetStoreWeight.
  destruct (GetStore c id) as [s|] eqn:Hs; [|split; [done|]; split; [done|]; split; done].
  pose proof (StoresKeyed_lookup c id s Hk Hs) as Hid.
  destruct (SaveStoreWeight id lw rw) as [err|].
  { split; [done|]. split; [done|]. split; [done|]. done. }
  destruct (putStoreLocked c _) as [e c'] eqn:Hp.
  destruct (putStoreLocked_cases _ _ _ _ Hp) as [(_ & -> & Hst & Hr)|(_ & -> & ->)].
  - split; [done|]. split; [done|]. split; [done|]. intros _. exists s.
    split; [done|]. unfold GetStore. rewrite Hst.
    change (GetID (SetRegionWeight rw (SetLeaderWeight lw s))) with (GetID s). rewrite Hid.
    split; [by rewrite lookup_insert_eq|].
    intros j Hj. by rewrite lookup_insert_ne by congruence.
  - split; [done|]. split; [done|]. split; [done|]. done.
Qed.

Section VersionChangeProps.
Variable Version : Type.
Variable ParseVersion : string -> option Version.
Variable LessThan : Version -> Version -> bool.
Hypothesis LessThan_irrefl : forall a, LessThan a a = false.
Hypothesis LessThan_trans : forall a b d, LessThan a b = true -> LessThan b d = true -> LessThan a d = true.

Let live (s : StoreInfo) (v : Version) : Prop :=
  IsTombstone s = false /\ ParseVersion (store_version (si_meta s)) = Some v.

Lemma minVersion_fold l acc r :
  foldl (minVersionStep Version ParseVersion LessThan) (Done acc) l = Done r ->
  (r = None -> acc = None /\ forall s, s ∈ l -> IsTombstone s = true) /\
  (forall v, r = Some v ->
     (acc = Some v \/ exists s, s ∈ l /\ live s v) /\
     (forall a, acc = Some a -> v = a \/ LessThan v a = true) /\
     (forall s w, s ∈ l -> live s w -> LessThan w v = false)).
Proof.
  revert acc. induction l as [|s l IH]; intros acc H.
  - simpl in H. inversion H; subst. split.
    + intros ->. split; [done|]. intros s Hs. by apply elem_of_nil in Hs.
    + intros v ->. split; [by left|]. split; [intros a [= ->]; by left|].
      intros s w Hs. by apply elem_of_nil in Hs.
  - simpl in H. cbv [mbind Go_bind] in H.
    destruct (IsTombstone s) eqn:Ht.
    + destruct (IH acc H) as [HN HS]. split.
      * intros Hr. destruct (HN Hr) as [Ha Hall]. split; [done|].
        intros s' Hs'. apply elem_of_cons in Hs' as [->|Hs']; auto.
      * intros v Hv. destruct (HS v Hv) as (H1 & H2 & H3). split; [|split].
        -- destruct H1 as [H1|(s' & Hs' & Hl)]; [by left|right].
           exists s'. split; [by apply elem_of_cons; right|done].
        -- done.
        -- intros s' w Hs' Hl. apply elem_of_cons in Hs' as [->|Hs'].
           ++ destruct Hl as [Ht' _]. congruence.
           ++ by apply (H3 s' w).
    + unfold MustParseVersion in H.
      destruct (ParseVersion (store_version (si_meta s))) as [w|] eqn:Hp.
      2:{ simpl in H. rewrite Go_foldl_panic in H; [discriminate|]. intros b.
          unfold minVersionStep. reflexivity. }
      set (a' := match acc with
                 | None => w
                 | Some m => if LessThan w m then w else m
                 end).
      assert (Ha' : foldl (minVersionStep Version ParseVersion LessThan) (Done (Some a')) l = Done r).
      { rewrite <- H. unfold a'. destruct acc as [m|]; [|done].
        by destruct (LessThan w m). }
      destruct (IH (Some a') Ha') as [HN HS]. split.
      * intros Hr. by destruct (HN Hr).
      * intros v Hv. destruct (HS v Hv) as (H1 & H2 & H3).
        destruct (H2 a' eq_refl) as [Hva|Hva].
        { (* [v] is the accumulated value *)
          split; [|split].
          - unfold a' in Hva. destruct acc as [m|].
            + destruct (LessThan w m) eqn:Hwm.
              * right. exists s. split; [by left|]. split; [done|]. by subst.
              * left. by subst.
            + right. exists s. split; [by left|]. split; [done|]. by subst.
          - intros a Ha. subst acc. unfold a' in Hva.
            destruct (LessThan w a) eqn:Hwa; [right; by subst|left; done].
          - intros s' w' Hs' Hl. apply elem_of_cons in Hs' as [->|Hs'].
            + destruct Hl as [_ Hp']. rewrite Hp in Hp'. injection Hp' as <-.
              subst v. unfold a'. destruct acc as [m|]; [|apply LessThan_irrefl].
              destruct (LessThan w m) eqn:Hwm; [apply LessThan_irrefl|exact Hwm].
            + by apply (H3 s' w'). }
        split; [|split].
        -- destruct H1 as [H1|(s' & Hs' & Hl)].
           ++ injection H1 as H1. exfalso. rewrite H1 in Hva. by rewrite LessThan_irrefl in Hva.
           ++ right. exists s'. split; [by apply elem_of_cons; right|done].
        -- intros a Ha. subst acc. right. unfold a' in Hva.
           destruct (LessThan w a) eqn:Hwa; [|done]. by apply (LessThan_trans v w a).
        -- intros s' w' Hs' Hl. apply elem_of_cons in Hs' as [->|Hs'].
           ++ destruct Hl as [_ Hp']. rewrite Hp in Hp'. injection Hp' as <-.
              apply not_true_is_false. intros Hwv.
              pose proof (LessThan_trans _ _ _ Hwv Hva) as Hwa'.
              unfold a' in Hwa'. destruct acc as [m|].
              ** destruct (LessThan w m) eqn:Hwm.
                 --- by rewrite LessThan_irrefl in Hwa'.
                 --- congruence.
              ** by rewrite LessThan_irrefl in Hwa'.
           ++ by apply (H3 s' w').
Qed.

Lemma minVersion_fold_panic l acc :
  (exists s, s ∈ l /\ IsTombstone s = false /\ ParseVersion (store_version (si_meta s)) = None) ->
  exists m, foldl (minVersionStep Version ParseVersion LessThan) (Done acc) l = Panic m.
Proof.
  revert acc. induction l as [|s l IH]; intros acc (s' & Hs' & Ht & Hp).
  { by apply elem_of_nil in Hs'. }
  simpl. cbv [mbind Go_bind].
  apply elem_of_cons in Hs' as [->|Hs'].
  - rewrite Ht. unfold MustParseVersion. rewrite Hp.
    eexists. apply Go_foldl_panic. intros b. reflexivity.
  - destruct (IsTombstone s); [apply IH; eauto|].
    unfold MustParseVersion. destruct (ParseVersion (store_version (si_meta s))) as [w|].
    + destruct acc as [m|]; [destruct (LessThan w m)|]; apply IH; eauto.
    + eexists. apply Go_foldl_panic. intros b. reflexivity.
Qed.

End VersionChangeProps.

(** [OnStoreVersionChange] panics when every store is Tombstone (the least
    version stays nil) and when a live store's version does not parse.  For
    a strict order [LessThan], when it raises the cluster version it raises
    it to the least version of the live stores, which is above the old
    cluster version. *)
Theorem OnStoreVersionChange_spec Version ParseVersion LessThan (cv : Version) c :
  (forall a, LessThan a a = false) ->
  (forall a b d, LessThan a b = true -> LessThan b d = true -> LessThan a d = true) ->
  ((forall s, s ∈ GetStores c -> IsTombstone s = true) ->
     exists m, OnStoreVersionChange Version ParseVersion LessThan cv c = Panic m) /\
  ((exists s, s ∈ GetStores c /\ IsTombstone s = false /\
              ParseVersion (store_version (si_meta s)) = None) ->
     exists m, OnStoreVersionChange Version ParseVersion LessThan cv c = Panic m) /\
  (forall v, OnStoreVersionChange Version ParseVersion LessThan cv c = Done (Some v) ->
     LessThan cv v = true /\
     (exists s, s ∈ GetStores c /\ IsTombstone s = false /\
                ParseVersion (store_version (si_meta s)) = Some v) /\
     (forall s w, s ∈ GetStores c -> IsTombstone s = false ->
                  ParseVersion (store_version (si_meta s)) = Some w -> LessThan w v = false)).
Proof.
  intros Hirr Htr. unfold OnStoreVersionChange. cbv [mbind Go_bind].
  split; [|split].
  - intros Hall.
    assert (Hnone : forall acc, (forall s, s ∈ GetStores c -> IsTombstone s = true) ->
              foldl (minVersionStep Version ParseVersion LessThan) (Done acc) (GetStores c) = Done acc).
    { intros acc. generalize (GetStores c). intros l. revert acc.
      induction l as [|s l IH]; intros acc Hl; [done|].
      simpl. cbv [mbind Go_bind].
      rewrite (Hl s ltac:(by left)). apply IH. intros s' Hs'. apply Hl. by right. }
    rewrite (Hnone None Hall). by eexists.
  - intros Hex. destruct (minVersion_fold_panic Version ParseVersion LessThan (GetStores c) None Hex)
      as [m Hm]. rewrite Hm. by eexists.
  - intros v H.
    destruct (foldl (minVersionStep Version ParseVersion LessThan) (Done None) (GetStores c))
      as [[m|]|msg] eqn:Hf; [|discriminate|discriminate].
    destruct (LessThan cv m) eqn:Hcv; [|discriminate]. injection H as <-.
    destruct (minVersion_fold Version ParseVersion LessThan Hirr Htr _ _ _ Hf) as [_ HS].
    destruct (HS m eq_refl) as (H1 & _ & H3). split; [done|]. split.
    + destruct H1 as [H1|(s & Hs & Ht & Hp)]; [discriminate|]. eauto.
    + intros s w Hs Ht Hp. apply (H3 s w Hs). split; done.
Qed.

(** Witness: [buryCluster false] holds a Tombstone store (3) and a
    writable metadata store. *)
Lemma RemoveTombStoneRecords_spec_witness :
  StoresKeyed (buryCluster false) /\
  match RemoveTombStoneRecords (buryCluster false) with
  | (e, c', _) =>
    Regions c' = Regions (buryCluster false) /\
    (storageWritable (buryCluster false) = true ->
       e = None /\
       forall j, GetStore c' j =
         match GetStore (buryCluster false) j with
         | Some s => if IsTombstone s then None else Some s
         | None => None
         end) /\
    (storageWritable (buryCluster false) = false ->
       c' = buryCluster false /\
       ((e = None /\ forall j s, GetStore (buryCluster false) j = Some s -> IsTombstone s = false) \/
        (e = Some ErrStorage /\ exists j s, GetStore (buryCluster false) j = Some s /\
                                           IsTombstone s = true)))
  end.
Proof.
  split; [apply demoCluster_keyed|].
  exact (RemoveTombStoneRecords_spec (buryCluster false) (demoCluster_keyed _ _ _ _)).
Defined.

(** The region count of the index: regions with a peer on the store. *)
Definition regionCountOf (c : RaftCluster) (id : N) : nat :=
  length (filter (fun r => hasPeerOn id (GetPeers r) = true) (GetRegions c)).

Definition neverLowSpace (_ : StoreInfo) (_ : float) : bool := false.

(** Witness: the Offline store 2 of [buryCluster false] holds no region. *)
Lemma checkStores_spec_witness :
  (forall c c', Regions c = Regions c' -> forall id, regionCountOf c id = regionCountOf c' id) /\
  StoresKeyed (buryCluster false) /\
  Regions (checkStores neverLowSpace 1%float 3 regionCountOf (buryCluster false)).1
    = Regions (buryCluster false) /\
  (storageWritable (buryCluster false) = false ->
     (checkStores neverLowSpace 1%float 3 regionCountOf (buryCluster false)).1 = buryCluster false) /\
  (storageWritable (buryCluster false) = true -> forall j,
     GetStore (checkStores neverLowSpace 1%float 3 regionCountOf (buryCluster false)).1 j =
     (fun s => if negb (IsTombstone s || IsUp s) && (regionCountOf (buryCluster false) (GetID s) =? 0)%nat
               then SetStoreState Tombstone s else s) <$> GetStore (buryCluster false) j).
Proof.
  assert (HR : forall c c', Regions c = Regions c' -> forall id,
                 regionCountOf c id = regionCountOf c' id).
  { intros c c' H id. unfold regionCountOf, GetRegions. by rewrite H. }
  split; [exact HR|]. split; [apply demoCluster_keyed|].
  exact (checkStores_spec neverLowSpace 1%float 3 regionCountOf (buryCluster false) HR
           (demoCluster_keyed _ _ _ _)).
Defined.

Definition zoneLabel : list StoreLabel := [{| label_key := "zone"; label_value := "z1" |}].

(** Witness: store 1 of [buryCluster false] gets a zone label. *)
Lemma UpdateStoreLabels_spec_witness :
  StoresKeyed (buryCluster false) /\
  match UpdateStoreLabels unit unitParse alwaysCompatible replaceLabels tt (buryCluster false) 1 zoneLabel with
  | (e, c', _) =>
    Regions c' = Regions (buryCluster false) /\
    (GetStore (buryCluster false) 1 = None ->
       e = Some (ErrMsg ("invalid store ID " +:+ pretty 1%N +:+ ", not found"))) /\
    (e <> None -> c' = buryCluster false) /\
    (e = None -> exists s, GetStore (buryCluster false) 1 = Some s /\
       GetStore c' 1 = Some (SetStoreLabels (replaceLabels s zoneLabel) s) /\
       forall j, j <> 1%N -> GetStore c' j = GetStore (buryCluster false) j)
  end.
Proof.
  split; [apply demoCluster_keyed|].
  exact (UpdateStoreLabels_spec unit unitParse alwaysCompatible replaceLabels tt
           (buryCluster false) 1 zoneLabel (demoCluster_keyed _ _ _ _)).
Defined.

Definition weightSaved (_ : N) (_ _ : float) : option Err := None.

(** Witness: weights 2 and 3 for store 1 of [buryCluster false]. *)
Lemma SetStoreWeight_spec_witness :
  StoresKeyed (buryCluster false) /\
  match SetStoreWeight weightSaved (buryCluster false) 1 2%float 3%float with
  | (e, c') =>
    Regions c' = Regions (buryCluster false) /\
    (GetStore (buryCluster false) 1 = None -> e = Some (ErrStoreNotFound 1)) /\
    (e <> None -> c' = buryCluster false) /\
    (e = None -> exists s, GetStore (buryCluster false) 1 = Some s /\
       GetStore c' 1 = Some (SetRegionWeight 3%float (SetLeaderWeight 2%float s)) /\
       forall j, j <> 1%N -> GetStore c' j = GetStore (buryCluster false) j)
  end.
Proof.
  split; [apply demoCluster_keyed|].
  exact (SetStoreWeight_spec weightSaved (buryCluster false) 1 2%float 3%float
           (demoCluster_keyed _ _ _ _)).
Defined.

(** Versions as numbers, parsed from the length of the version string. *)
Definition lengthVersion (v : string) : option N := Some (N.of_nat (String.length v)).

(** Witness: [N.ltb] is a strict order. *)
Lemma OnStoreVersionChange_spec_witness :
  (forall a, N.ltb a a = false) /\
  (forall a b d, N.ltb a b = true -> N.ltb b d = true -> N.ltb a d = true) /\
  ((forall s, s ∈ GetStores (buryCluster false) -> IsTombstone s = true) ->
     exists m, OnStoreVersionChange N lengthVersion N.ltb 0%N (buryCluster false) = Panic m) /\
  ((exists s, s ∈ GetStores (buryCluster false) /\ IsTombstone s = false /\
              lengthVersion (store_version (si_meta s)) = None) ->
     exists m, OnStoreVersionChange N lengthVersion N.ltb 0%N (buryCluster false) = Panic m) /\
  (forall v, OnStoreVersionChange N lengthVersion N.ltb 0%N (buryCluster false) = Done (Some v) ->
     N.ltb 0%N v = true /\
     (exists s, s ∈ GetStores (buryCluster false) /\ IsTombstone s = false /\
                lengthVersion (store_version (si_meta s)) = Some v) /\
     (forall s w, s ∈ GetStores (buryCluster false) -> IsTombstone s = false ->
                  lengthVersion (store_version (si_meta s)) = Some w -> N.ltb w v = false)).
Proof.
  assert (Hirr : forall a, N.ltb a a = false) by (intros a; apply N.ltb_irrefl).
  assert (Htr : forall a b d, N.ltb a b = true -> N.ltb b d = true -> N.ltb a d = true).
  { intros a b d. rewrite !N.ltb_lt. lia. }
  split; [exact Hirr|]. split; [exact Htr|].
  exact (OnStoreVersionChange_spec N lengthVersion N.ltb 0%N (buryCluster false) Hirr Htr).
Defined.

Example checkStores_buries_store2 :
  storeStateOf (checkStores neverLowSpace 1%float 3 regionCountOf (buryCluster false)).1 2
  = Some Tombstone.
Proof. vm_compute. reflexivity. Qed.

Example RemoveTombStoneRecords_drops_store3 :
  GetStore (RemoveTombStoneRecords (buryCluster false)).1.2 3 = None.
Proof. vm_compute. reflexivity. Qed.

(** A store whose state is the unnamed code 3 and which holds no region is
    neither Up nor Tombstone: [checkStores] buries it. *)
Example checkStores_buries_unnamed_state :
  storeStateOf (checkStores neverLowSpace 1%float 3 regionCountOf
    (demoCluster (Some (emptyStorage false)) noLabels
       [mkStore 1 "a:1" Up StoreType_Performance [];
        mkStore 5 "a:5" (StoreState_Other 3) StoreType_Performance []] [])).1 5
  = Some Tombstone.
Proof. vm_compute. reflexivity. Qed.

(** Options with no limits configured and no label property. *)
Definition plainOptions : Options :=
  {| GetMaxStoreDownTime := 0; GetMaxPendingPeerCount := 0; GetMaxSnapshotCount := 0;
     GetLowSpaceRatio := 1%float; CheckLabelProperty := fun _ _ => false |}.

Definition tombstoneStore3 : StoreInfo :=
  NewStoreInfo (mkStore 3 "a:3" Tombstone StoreType_Storage []).

(** Witness: the balance-region filter rejects the Tombstone store 3 as a
    source. *)
Lemma StoreStateFilter_source_implies_target_witness :
  StoreStateFilter_Source (fun _ => 0%Z) (fun _ => false) (fun _ => false)
    (balanceRegionStateFilter "") plainOptions tombstoneStore3 = true /\
  StoreStateFilter_Target (fun _ => 0%Z) (fun _ => false) (fun _ => false)
    (balanceRegionStateFilter "") plainOptions tombstoneStore3 = true.
Proof.
  assert (H : StoreStateFilter_Source (fun _ => 0%Z) (fun _ => false) (fun _ => false)
                (balanceRegionStateFilter "") plainOptions tombstoneStore3 = true)
    by reflexivity.
  split; [exact H|].
  exact (StoreStateFilter_source_implies_target (fun _ => 0%Z) (fun _ => false) (fun _ => false)
           (balanceRegionStateFilter "") plainOptions tombstoneStore3 H).
Defined.
